(** * VAYO community matching: the match-computation pipeline

    A shallow embedding of [matching_system/celery_tasks.py]
    ([process_match_task], [_apply_diversity]), of the profile sanitiser,
    the introduction and the moderation of [matching_system/ai_services.py]
    ([AIService.sanitize_and_enrich_profile], [_basic_pii_removal],
    [generate_ai_introduction], [_check_toxicity]) and of the seeding of
    the vector index ([seed_vectors.py], [seed_community_embeddings]),
    with the properties of the code stated and proved over it. *)

From Stdlib Require Import Floats Ascii.
From stdpp Require Import gmap strings list fin_maps.

(** Decimal float literals denote the nearest binary64 value, as in Python. *)
Set Warnings "-inexact-float".
Set Warnings "-clear-no-such-hyp".

(** ** Data model *)

(** Python floats are IEEE 754 binary64 values, as Rocq's primitive floats. *)
Abbreviation score := PrimFloat.float.

(** [models.MatchTier]: a closed enumeration. *)
Inductive MatchTier := SOULMATE | EXPLORER | FALLBACK.

(** The input dictionary [user_data]. *)
Record UserProfile := {
  user_id : string;
  bio : string;
  interest_tags : list string;
  city : string;
  timezone : string;
}.

(** A row of [filter_communities_by_location]: the merge reads all five
    keys with [row["key"]]. *)
Record CommunityRecord := {
  community_id : string;
  community_name : string;
  category : string;
  member_count : Z;
  recent_activity : Z;
}.

(** A row of [get_popular_communities]: the fallback branch reads
    [recent_activity] with [c.get("recent_activity", 0)], so that key may
    be absent. *)
Record PopularRecord := {
  pop_community_id : string;
  pop_community_name : string;
  pop_category : string;
  pop_member_count : Z;
  pop_recent_activity : option Z;
}.

(** An entry of [vector_search]'s answer. *)
Record VectorMatch := {
  vm_community_id : string;
  vm_match_score : score;
}.

(** The dictionaries of [enriched_results] and the [CommunityMatch] models
    built from them by [CommunityMatch( **m )] carry the same six keys. *)
Record CommunityMatch := {
  cm_community_id : string;
  cm_community_name : string;
  cm_category : string;
  cm_match_score : score;
  cm_member_count : Z;
  cm_recent_activity : Z;
}.

Record MatchResult := {
  mr_task_id : string;
  mr_user_id : string;
  mr_tier : MatchTier;
  mr_matches : list CommunityMatch;
  mr_processing_time_ms : Z;
}.

(** The two terminal payloads of the task: the dump of a [MatchResult], or
    [{"task_id": .., "status": "failed", "error": ..}]. *)
Inductive Payload :=
| Success (result : MatchResult)
| Failed (task_id : string) (error : string).

(** ** Tier classification (celery_tasks.py, lines 146-151) *)

Definition classify_tier (top_score : score) : MatchTier :=
  if PrimFloat.ltb 0.87%float top_score then SOULMATE
  else if PrimFloat.ltb top_score 0.55%float then FALLBACK
  else EXPLORER.

(** ** Diversity pass (celery_tasks.py, [_apply_diversity]) *)

(** [collections.Counter] over a list of keys. *)
Definition Counter (keys : list string) : gmap string nat :=
  foldl (fun m k => <[k := S (default 0 (m !! k))]> m) ∅ keys.

(** The [for i in range(start, len(matches))] scan: the first index at or
    after [start] whose category is not [dominant]. The list argument is
    the part of [matches] from [start] on. *)
Fixpoint first_diverse (dominant : string) (start : nat) (rest : list CommunityMatch)
  : option nat :=
  match rest with
  | [] => None
  | m :: rest' =>
      if decide (cm_category m ≠ dominant) then Some start
      else first_diverse dominant (S start) rest'
  end.

(** [list.insert(i, x)] for [i] within the list. *)
Definition list_insert_at {A} (i : nat) (x : A) (l : list A) : list A :=
  take i l ++ x :: drop i l.

Definition _apply_diversity (matches : list CommunityMatch) : list CommunityMatch :=
  if decide (length matches < 4) then matches
  else
    let top_categories := cm_category <$> take 3 matches in
    let category_counts := Counter top_categories in
    if decide (size category_counts = 1) then
      match top_categories with
      | dominant :: _ =>
          match first_diverse dominant 3 (drop 3 matches) with
          | Some i =>
              match matches !! i with
              | Some diverse => list_insert_at 2 diverse (delete i matches)
              | None => matches
              end
          | None => matches
          end
      | [] => matches
      end
    else matches.

(** Vocabulary for the contract of the pass: the entries of a list all
    carry one category; every entry from position 3 on carries the category
    of the first entry; and the three situations in which the pass is to
    leave the list alone. *)
Definition same_category (ms : list CommunityMatch) : Prop :=
  forall m m', m ∈ ms -> m' ∈ ms -> cm_category m = cm_category m'.

Definition tail_shares_top (matches : list CommunityMatch) : Prop :=
  forall top m, head matches = Some top -> m ∈ drop 3 matches ->
    cm_category m = cm_category top.

Definition diversity_noop (matches : list CommunityMatch) : Prop :=
  length matches < 4 \/ ¬ same_category (take 3 matches) \/ tail_shares_top matches.

(** ** Merge of ranker output with candidate records
    (celery_tasks.py, lines 119-133) *)

(** [{c["community_id"]: c for c in communities}]: a later row replaces an
    earlier one with the same id. *)
Definition build_community_map (communities : list CommunityRecord)
  : gmap string CommunityRecord :=
  foldl (fun m c => <[community_id c := c]> m) ∅ communities.

Definition enrich (v : VectorMatch) (sql_data : CommunityRecord) : CommunityMatch :=
  {| cm_community_id := vm_community_id v;
     cm_community_name := community_name sql_data;
     cm_category := category sql_data;
     cm_match_score := vm_match_score v;
     cm_member_count := member_count sql_data;
     cm_recent_activity := recent_activity sql_data |}.

Fixpoint merge_results (community_map : gmap string CommunityRecord)
    (vector_results : list VectorMatch) : list CommunityMatch :=
  match vector_results with
  | [] => []
  | v :: rest =>
      match community_map !! vm_community_id v with
      | Some sql_data => enrich v sql_data :: merge_results community_map rest
      | None => merge_results community_map rest
      end
  end.

(** ** Pattern-based PII removal (ai_services.py, [_basic_pii_removal])

    The two [re.sub] calls are embedded through a small backtracking
    matcher for the fragment of regular expressions they use: sequences of
    [\b] and of greedy bounded repetitions of a character class. Text is
    taken to be ASCII: a character is a word character when it is a letter,
    a digit or an underscore. *)

Module Re.

Definition code (c : ascii) : nat := nat_of_ascii c.

Definition in_range (lo hi : nat) (c : ascii) : bool :=
  (lo <=? code c)%nat && (code c <=? hi)%nat.

(** [\d] *)
Definition is_digit (c : ascii) : bool := in_range 48 57 c.
(** [A-Za-z] *)
Definition is_alpha (c : ascii) : bool := in_range 65 90 c || in_range 97 122 c.
(** [A-Za-z0-9] *)
Definition is_alnum (c : ascii) : bool := is_alpha c || is_digit c.
(** [\w] *)
Definition is_word (c : ascii) : bool := is_alnum c || Ascii.eqb c "_".

Definition one_of (cs : string) (c : ascii) : bool :=
  existsb (Ascii.eqb c) (String.list_ascii_of_string cs).

Inductive item :=
| WordBoundary
| Chars (cls : ascii -> bool) (lo : nat) (hi : option nat).

Definition regex := list item.

(** [\b]: exactly one of the characters before and after the position is
    a word character; the edge of the text counts as a non-word one. *)
Definition at_boundary (prev : option ascii) (s : list ascii) : bool :=
  xorb (from_option is_word false prev) (from_option is_word false (head s)).

Definition may_take (hi : option nat) : bool :=
  match hi with Some 0 => false | _ => true end.

(** A greedy repetition [cls{lo,hi}] followed by the continuation [k]:
    take one more character when allowed, and fall back to stopping here
    when the longer attempt fails. The result is the number of characters
    the whole match consumes. *)
Fixpoint match_chars (cls : ascii -> bool) (lo : nat) (hi : option nat)
    (k : option ascii -> list ascii -> option nat)
    (prev : option ascii) (s : list ascii) : option nat :=
  let stop := match lo with 0 => k prev s | S _ => None end in
  match s with
  | c :: s' =>
      if cls c && may_take hi then
        match match_chars cls (pred lo) (pred <$> hi) k (Some c) s' with
        | Some n => Some (S n)
        | None => stop
        end
      else stop
  | [] => stop
  end.

Fixpoint match_here (r : regex) (prev : option ascii) (s : list ascii)
  : option nat :=
  match r with
  | [] => Some 0
  | WordBoundary :: r' =>
      if at_boundary prev s then match_here r' prev s else None
  | Chars cls lo hi :: r' => match_chars cls lo hi (match_here r') prev s
  end.

(** [re.sub]: scan from the left; at a position where the pattern matches
    [S n] characters emit the replacement and skip them, elsewhere copy
    the character. [skip] counts the characters of a match still to drop. *)
Fixpoint sub_from (r : regex) (repl : list ascii) (prev : option ascii)
    (skip : nat) (s : list ascii) : list ascii :=
  match s with
  | [] => []
  | c :: s' =>
      match skip with
      | S n => sub_from r repl (Some c) n s'
      | 0 =>
          match match_here r prev s with
          | Some (S n) => repl ++ sub_from r repl (Some c) n s'
          | _ => c :: sub_from r repl (Some c) 0 s'
          end
      end
  end.

Definition sub (r : regex) (repl : string) (text : string) : string :=
  String.string_of_list_ascii
    (sub_from r (String.list_ascii_of_string repl) None 0 (String.list_ascii_of_string text)).

(** [\b[A-Za-z0-9._%+-]+@[A-Za-z0-9.-]+\.[A-Za-z]{2,}\b] *)
Definition email : regex :=
  [ WordBoundary;
    Chars (fun c => is_alnum c || one_of "._%+-" c) 1 None;
    Chars (one_of "@") 1 (Some 1);
    Chars (fun c => is_alnum c || one_of ".-" c) 1 None;
    Chars (one_of ".") 1 (Some 1);
    Chars is_alpha 2 None;
    WordBoundary ].

(** [\b\d{3}[-.]?\d{3}[-.]?\d{4}\b] *)
Definition phone : regex :=
  [ WordBoundary;
    Chars is_digit 3 (Some 3);
    Chars (one_of "-.") 0 (Some 1);
    Chars is_digit 3 (Some 3);
    Chars (one_of "-.") 0 (Some 1);
    Chars is_digit 4 (Some 4);
    WordBoundary ].

End Re.

Definition _basic_pii_removal (text : string) : string :=
  let text := Re.sub Re.email "[email removed]" text in
  let text := Re.sub Re.phone "[phone removed]" text in
  text.

(** ** Exceptions, collaborator calls and the call trace

    A Python exception is kept as its message [str(e)]. A computation
    threads the list of collaborator calls made so far, oldest first, and
    ends with a value or a raised exception. *)

Inductive outcome (A : Type) :=
| Ok (a : A)
| Raise (msg : string).
Arguments Ok {A} a.
Arguments Raise {A} msg.

Inductive Event :=
| EvChatCompletion (bio : string) (tags : list string)
| EvEmbeddingsCreate (text : string)
| EvSetUserVector (uid : string) (vector : list score)
| EvFilterByLocation (city timezone : string)
| EvGetPopular
| EvVectorSearch (query_vector : list score) (community_ids : list string) (top_k : nat)
| EvPublish (uid : string) (result : MatchResult).

Definition M (A : Type) : Type := list Event -> outcome A * list Event.

Definition ret {A} (a : A) : M A := fun t => (Ok a, t).

Definition raise {A} (msg : string) : M A := fun t => (Raise msg, t).

Definition bind {A B} (m : M A) (k : A -> M B) : M B :=
  fun t =>
    match m t with
    | (Ok a, t') => k a t'
    | (Raise e, t') => (Raise e, t')
    end.

(** [try: m  except Exception as e: handler(e)] *)
Definition try_except {A} (m : M A) (handler : string -> M A) : M A :=
  fun t =>
    match m t with
    | (Ok a, t') => (Ok a, t')
    | (Raise e, t') => handler e t'
    end.

(** A call to a collaborator: it is recorded, and answers or raises. *)
Definition call {A} (ev : Event) (answer : outcome A) : M A :=
  fun t => (answer, t ++ [ev]).

#[global] Instance M_ret : MRet M := @ret.
#[global] Instance M_bind : MBind M := fun A B k m => bind m k.

(** The collaborators the task talks to. [chat_enrich] stands for the body
    of the [try] block of [sanitize_and_enrich_profile]: the chat
    completion request and the decoding of its JSON answer, either of which
    may raise. [elapsed_ms] is the value of
    [int((time.time() - start_time) * 1000)] where the result is built. *)
Record Collaborators := {
  chat_enrich : string -> list string -> outcome (string * list string * bool);
  embeddings_create : string -> outcome (list score);
  set_user_vector : string -> list score -> outcome unit;
  filter_communities_by_location : string -> string -> outcome (list CommunityRecord);
  get_popular_communities : outcome (list PopularRecord);
  vector_search : list score -> list string -> nat -> outcome (list VectorMatch);
  publish_match_result : string -> MatchResult -> outcome unit;
  elapsed_ms : Z;
}.

(** ** The sanitiser and the embedding helpers (ai_services.py) *)

Definition create_embedding_payload (bio : string) (tags : list string) : string :=
  let tags_text := String.concat ", " tags in
  "Bio: " +:+ bio +:+ String (ascii_of_nat 10) "Interests: " +:+ tags_text.

Section Pipeline.

Variable co : Collaborators.

Definition sanitize_and_enrich_profile (bio : string) (interest_tags : list string)
  : M (string * list string * bool) :=
  try_except
    (call (EvChatCompletion bio interest_tags) (chat_enrich co bio interest_tags))
    (fun _ =>
       let cleaned := _basic_pii_removal bio in
       ret (cleaned, interest_tags, false)).

Definition generate_embedding (text : string) : M (list score) :=
  call (EvEmbeddingsCreate text) (embeddings_create co text).

(** ** The task (celery_tasks.py, [process_match_task]) *)

Definition popular_match (c : PopularRecord) : CommunityMatch :=
  {| cm_community_id := pop_community_id c;
     cm_community_name := pop_community_name c;
     cm_category := pop_category c;
     cm_match_score := 0%float;
     cm_member_count := pop_member_count c;
     cm_recent_activity := default 0%Z (pop_recent_activity c) |}.

(** The body of the [try] block. *)
Definition process_match_body (task_id : string) (user_data : UserProfile)
  : M Payload :=
  '(sanitized_bio, enriched_tags, pii_removed) ←
      sanitize_and_enrich_profile (bio user_data) (interest_tags user_data);
  let embedding_text := create_embedding_payload sanitized_bio enriched_tags in
  user_vector ← generate_embedding embedding_text;
  call (EvSetUserVector (user_id user_data) user_vector)
       (set_user_vector co (user_id user_data) user_vector);;
  communities ←
      call (EvFilterByLocation (city user_data) (timezone user_data))
           (filter_communities_by_location co (city user_data) (timezone user_data));
  match communities with
  | [] =>
      popular ← call EvGetPopular (get_popular_communities co);
      let matches := popular_match <$> popular in
      let result :=
        {| mr_task_id := task_id;
           mr_user_id := user_id user_data;
           mr_tier := FALLBACK;
           mr_matches := matches;
           mr_processing_time_ms := elapsed_ms co |} in
      ret (Success result)
  | _ :: _ =>
      let community_ids := community_id <$> communities in
      vector_results ←
          call (EvVectorSearch user_vector community_ids 10)
               (vector_search co user_vector community_ids 10);
      let community_map := build_community_map communities in
      let enriched_results := merge_results community_map vector_results in
      match enriched_results with
      | [] => ret (Failed task_id "No matching communities after merge")
      | _ :: _ =>
          let enriched_results := _apply_diversity enriched_results in
          match enriched_results with
          | [] => raise "list index out of range"
          | top :: _ =>
              let top_score := cm_match_score top in
              let tier := classify_tier top_score in
              let matches := take 5 enriched_results in
              let result :=
                {| mr_task_id := task_id;
                   mr_user_id := user_id user_data;
                   mr_tier := tier;
                   mr_matches := matches;
                   mr_processing_time_ms := elapsed_ms co |} in
              call (EvPublish (user_id user_data) result)
                   (publish_match_result co (user_id user_data) result);;
              ret (Success result)
          end
      end
  end.

Definition process_match_task (task_id : string) (user_data : UserProfile)
  : M Payload :=
  try_except
    (process_match_body task_id user_data)
    (fun e => ret (Failed task_id e)).

End Pipeline.

(** ** Scenarios of a run

    Names for what the collaborators answer in a run, for the intermediate
    values of the task and for the results it is expected to build. *)

Section Scenarios.

Variable co : Collaborators.
Variables (task_id : string) (user_data : UserProfile).

(** What step 1 hands to the rest of the task. *)
Definition sanitized : string * list string * bool :=
  match chat_enrich co (bio user_data) (interest_tags user_data) with
  | Ok enriched => enriched
  | Raise _ => (_basic_pii_removal (bio user_data), interest_tags user_data, false)
  end.

Definition embedding_text : string :=
  create_embedding_payload sanitized.1.1 sanitized.1.2.

(** The calls made up to and including the location filter. *)
Definition trace_to_filter (user_vector : list score) : list Event :=
  [ EvChatCompletion (bio user_data) (interest_tags user_data);
    EvEmbeddingsCreate embedding_text;
    EvSetUserVector (user_id user_data) user_vector;
    EvFilterByLocation (city user_data) (timezone user_data) ].

(** The embedding and the cache write succeed, so the task gets to ask
    the location filter. *)
Definition reaches_filter (user_vector : list score) : Prop :=
  embeddings_create co embedding_text = Ok user_vector
  /\ set_user_vector co (user_id user_data) user_vector = Ok ().

(** The location filter answers with no candidate. *)
Definition fallback_branch (user_vector : list score) : Prop :=
  reaches_filter user_vector
  /\ filter_communities_by_location co (city user_data) (timezone user_data) = Ok [].

(** The location filter answers with candidates and the ranker answers. *)
Definition vector_branch (user_vector : list score)
    (communities : list CommunityRecord) (vector_results : list VectorMatch) : Prop :=
  reaches_filter user_vector
  /\ filter_communities_by_location co (city user_data) (timezone user_data)
     = Ok communities
  /\ communities ≠ []
  /\ vector_search co user_vector (community_id <$> communities) 10 = Ok vector_results.

(** The result built on the structural-fallback branch. *)
Definition fallback_result (popular : list PopularRecord) : MatchResult :=
  {| mr_task_id := task_id;
     mr_user_id := user_id user_data;
     mr_tier := FALLBACK;
     mr_matches := popular_match <$> popular;
     mr_processing_time_ms := elapsed_ms co |}.

(** The result built on the vector-search branch from the merged list. *)
Definition ranked_result (merged : list CommunityMatch) : MatchResult :=
  let reordered := _apply_diversity merged in
  {| mr_task_id := task_id;
     mr_user_id := user_id user_data;
     mr_tier := classify_tier (from_option cm_match_score 0%float (head reordered));
     mr_matches := take 5 reordered;
     mr_processing_time_ms := elapsed_ms co |}.

(** A collaborator of steps 2 to 6 raises [e], those before it having
    answered. *)
Inductive aborts_with (e : string) : Prop :=
| abort_embedding :
    embeddings_create co embedding_text = Raise e -> aborts_with e
| abort_cache_vector v :
    embeddings_create co embedding_text = Ok v ->
    set_user_vector co (user_id user_data) v = Raise e -> aborts_with e
| abort_filter v :
    reaches_filter v ->
    filter_communities_by_location co (city user_data) (timezone user_data) = Raise e ->
    aborts_with e
| abort_popular v :
    fallback_branch v ->
    get_popular_communities co = Raise e -> aborts_with e
| abort_search v communities :
    reaches_filter v ->
    filter_communities_by_location co (city user_data) (timezone user_data)
    = Ok communities ->
    communities ≠ [] ->
    vector_search co v (community_id <$> communities) 10 = Raise e -> aborts_with e
| abort_publish v communities vector_results :
    vector_branch v communities vector_results ->
    let merged := merge_results (build_community_map communities) vector_results in
    merged ≠ [] ->
    publish_match_result co (user_id user_data) (ranked_result merged) = Raise e ->
    aborts_with e.

(** A terminal payload of this task for this user. *)
Definition well_formed (payload : Payload) : Prop :=
  match payload with
  | Success result =>
      mr_task_id result = task_id /\ mr_user_id result = user_id user_data
  | Failed tid _ => tid = task_id
  end.

End Scenarios.

(** ** The ends of a run

    Every way [process_match_task] can end, with the payload it returns and
    the calls it has made by then. *)

Section RunEnds.

Variable co : Collaborators.
Variables (task_id : string) (user_data : UserProfile).

Inductive run_ends : outcome Payload * list Event -> Prop :=
| ends_embedding_raises e :
    embeddings_create co (embedding_text co user_data) = Raise e ->
    run_ends (Ok (Failed task_id e),
              [ EvChatCompletion (bio user_data) (interest_tags user_data);
                EvEmbeddingsCreate (embedding_text co user_data) ])
| ends_cache_raises v e :
    embeddings_create co (embedding_text co user_data) = Ok v ->
    set_user_vector co (user_id user_data) v = Raise e ->
    run_ends (Ok (Failed task_id e),
              [ EvChatCompletion (bio user_data) (interest_tags user_data);
                EvEmbeddingsCreate (embedding_text co user_data);
                EvSetUserVector (user_id user_data) v ])
| ends_filter_raises v e :
    reaches_filter co user_data v ->
    filter_communities_by_location co (city user_data) (timezone user_data) = Raise e ->
    run_ends (Ok (Failed task_id e), trace_to_filter co user_data v)
| ends_popular_raises v e :
    fallback_branch co user_data v ->
    get_popular_communities co = Raise e ->
    run_ends (Ok (Failed task_id e), trace_to_filter co user_data v ++ [EvGetPopular])
| ends_fallback v popular :
    fallback_branch co user_data v ->
    get_popular_communities co = Ok popular ->
    run_ends (Ok (Success (fallback_result co task_id user_data popular)),
              trace_to_filter co user_data v ++ [EvGetPopular])
| ends_search_raises v communities e :
    reaches_filter co user_data v ->
    filter_communities_by_location co (city user_data) (timezone user_data)
    = Ok communities ->
    communities ≠ [] ->
    vector_search co v (community_id <$> communities) 10 = Raise e ->
    run_ends (Ok (Failed task_id e),
              trace_to_filter co user_data v
              ++ [EvVectorSearch v (community_id <$> communities) 10])
| ends_merge_empty v communities vector_results :
    vector_branch co user_data v communities vector_results ->
    merge_results (build_community_map communities) vector_results = [] ->
    run_ends (Ok (Failed task_id "No matching communities after merge"),
              trace_to_filter co user_data v
              ++ [EvVectorSearch v (community_id <$> communities) 10])
| ends_publish_raises v communities vector_results e :
    vector_branch co user_data v communities vector_results ->
    let merged := merge_results (build_community_map communities) vector_results in
    let result := ranked_result co task_id user_data merged in
    merged ≠ [] ->
    publish_match_result co (user_id user_data) result = Raise e ->
    run_ends (Ok (Failed task_id e),
              trace_to_filter co user_data v
              ++ [EvVectorSearch v (community_id <$> communities) 10;
                  EvPublish (user_id user_data) result])
| ends_ranked v communities vector_results :
    vector_branch co user_data v communities vector_results ->
    let merged := merge_results (build_community_map communities) vector_results in
    let result := ranked_result co task_id user_data merged in
    merged ≠ [] ->
    publish_match_result co (user_id user_data) result = Ok () ->
    run_ends (Ok (Success result),
              trace_to_filter co user_data v
              ++ [EvVectorSearch v (community_id <$> communities) 10;
                  EvPublish (user_id user_data) result]).

End RunEnds.



(** ** Sample data

    A profile, six candidate communities of categories
    sports, sports, sports, music, art, tech ranked with scores
    0.91, 0.80, 0.78, 0.70, 0.60, 0.50, and collaborators that answer with
    them; variants in which one collaborator misbehaves. *)

Module Demo.

Definition alice : UserProfile :=
  {| user_id := "u-1";
     bio := "Trail runner. Write to alice@example.com or 512-555-0100";
     interest_tags := ["running"; "outdoors"];
     city := "Austin";
     timezone := "America/Chicago" |}.

Definition community (id name cat : string) (members : Z) : CommunityRecord :=
  {| community_id := id; community_name := name; category := cat;
     member_count := members; recent_activity := 7 |}.

Definition communities : list CommunityRecord :=
  [ community "c1" "Austin Runners" "sports" 120;
    community "c2" "Lake Cyclists" "sports" 80;
    community "c3" "Climbing Gym" "sports" 64;
    community "c4" "Open Mic" "music" 41;
    community "c5" "Sketch Club" "art" 35;
    community "c6" "Rust Meetup" "tech" 230 ].

Definition ranking : list VectorMatch :=
  [ {| vm_community_id := "c1"; vm_match_score := 0.91 |};
    {| vm_community_id := "c2"; vm_match_score := 0.80 |};
    {| vm_community_id := "c3"; vm_match_score := 0.78 |};
    {| vm_community_id := "c4"; vm_match_score := 0.70 |};
    {| vm_community_id := "c5"; vm_match_score := 0.60 |};
    {| vm_community_id := "c6"; vm_match_score := 0.50 |} ].

(** Ids the relational store does not know. *)
Definition stale_ranking : list VectorMatch :=
  [ {| vm_community_id := "x1"; vm_match_score := 0.93 |};
    {| vm_community_id := "x2"; vm_match_score := 0.61 |} ].

Definition popular_row (id name cat : string) (activity : option Z) : PopularRecord :=
  {| pop_community_id := id; pop_community_name := name; pop_category := cat;
     pop_member_count := 1000; pop_recent_activity := activity |}.

Definition popular : list PopularRecord :=
  [ popular_row "p1" "Book Club" "culture" (Some 12%Z);
    popular_row "p2" "Chess" "games" None;
    popular_row "p3" "Hiking" "sports" (Some 3%Z);
    popular_row "p4" "Cooking" "food" None;
    popular_row "p5" "Photography" "art" (Some 9%Z);
    popular_row "p6" "Board Games" "games" (Some 1%Z) ].

Definition vector : list score := [0.25%float; (-0.5)%float; 0.125%float].

(** Every collaborator answers; the chat model is not configured, so the
    sanitiser falls back to pattern matching. *)
Definition co : Collaborators :=
  {| chat_enrich := fun _ _ => Raise "'NoneType' object has no attribute 'chat'";
     embeddings_create := fun _ => Ok vector;
     set_user_vector := fun _ _ => Ok ();
     filter_communities_by_location := fun _ _ => Ok communities;
     get_popular_communities := Ok popular;
     vector_search := fun _ _ _ => Ok ranking;
     publish_match_result := fun _ _ => Ok ();
     elapsed_ms := 840 |}.

Definition with_filter (answer : outcome (list CommunityRecord)) (c : Collaborators)
  : Collaborators :=
  {| chat_enrich := chat_enrich c;
     embeddings_create := embeddings_create c;
     set_user_vector := set_user_vector c;
     filter_communities_by_location := fun _ _ => answer;
     get_popular_communities := get_popular_communities c;
     vector_search := vector_search c;
     publish_match_result := publish_match_result c;
     elapsed_ms := elapsed_ms c |}.

Definition with_embedding (answer : outcome (list score)) (c : Collaborators)
  : Collaborators :=
  {| chat_enrich := chat_enrich c;
     embeddings_create := fun _ => answer;
     set_user_vector := set_user_vector c;
     filter_communities_by_location := filter_communities_by_location c;
     get_popular_communities := get_popular_communities c;
     vector_search := vector_search c;
     publish_match_result := publish_match_result c;
     elapsed_ms := elapsed_ms c |}.

Definition with_cache (answer : outcome unit) (c : Collaborators) : Collaborators :=
  {| chat_enrich := chat_enrich c;
     embeddings_create := embeddings_create c;
     set_user_vector := fun _ _ => answer;
     filter_communities_by_location := filter_communities_by_location c;
     get_popular_communities := get_popular_communities c;
     vector_search := vector_search c;
     publish_match_result := publish_match_result c;
     elapsed_ms := elapsed_ms c |}.

Definition with_search (answer : outcome (list VectorMatch)) (c : Collaborators)
  : Collaborators :=
  {| chat_enrich := chat_enrich c;
     embeddings_create := embeddings_create c;
     set_user_vector := set_user_vector c;
     filter_communities_by_location := filter_communities_by_location c;
     get_popular_communities := get_popular_communities c;
     vector_search := fun _ _ _ => answer;
     publish_match_result := publish_match_result c;
     elapsed_ms := elapsed_ms c |}.

Definition with_publish (answer : outcome unit) (c : Collaborators) : Collaborators :=
  {| chat_enrich := chat_enrich c;
     embeddings_create := embeddings_create c;
     set_user_vector := set_user_vector c;
     filter_communities_by_location := filter_communities_by_location c;
     get_popular_communities := get_popular_communities c;
     vector_search := vector_search c;
     publish_match_result := fun _ _ => answer;
     elapsed_ms := elapsed_ms c |}.

(** The location filter finds nothing. *)
Definition no_candidates : Collaborators := with_filter (Ok []) co.

(** The vector index and the relational store disagree. *)
Definition stale_index : Collaborators := with_search (Ok stale_ranking) co.

(** The cache write, respectively the publish call, raises. *)
Definition cache_down : Collaborators :=
  with_cache (Raise "Error 111 connecting to localhost:6379") co.
Definition publish_down : Collaborators :=
  with_publish (Raise "Error 111 connecting to localhost:6379") co.

(** The embedding request fails. *)
Definition embedding_down : Collaborators :=
  with_embedding (Raise "Connection error.") co.

(** The location query times out: [str(asyncio.TimeoutError())] is the
    empty string. *)
Definition filter_timeout : Collaborators := with_filter (Raise "") co.

End Demo.

(** ** Vocabulary for texts with an e-mail address or a phone number *)

(** A text as the list of its characters, and back. *)
Definition chars (text : string) : list ascii := String.list_ascii_of_string text.
Definition text_of (s : list ascii) : string := String.string_of_list_ascii s.

(** A character that is neither a digit nor an at sign. *)
Definition plain (c : ascii) : Prop :=
  Re.is_digit c = false /\ Re.one_of "@" c = false.

(** No word character on this side of a position. *)
Definition non_word (c : option ascii) : Prop :=
  from_option Re.is_word false c = false.

Definition optional_separator (sep : list ascii) : Prop :=
  sep = [] \/ exists c, sep = [c] /\ Re.one_of "-." c = true.

Definition digits (n : nat) (s : list ascii) : Prop :=
  length s = n /\ Forall (fun c => Re.is_digit c = true) s.

(** The classes of the e-mail pattern: [A-Za-z0-9._%+-] and [A-Za-z0-9.-]. *)
Definition local_char (c : ascii) : bool := Re.is_alnum c || Re.one_of "._%+-" c.
Definition domain_char (c : ascii) : bool := Re.is_alnum c || Re.one_of ".-" c.


(** ** Texts laid out as addresses and numbers between delimiters

    The patterns are written for Python's [str]; on characters of the
    ASCII range the byte-level classes above and Python's [\d], [\w] and
    [\b] agree, so what is stated about the patterns is stated for ASCII
    text. *)

Definition is_ascii (c : ascii) : bool := (Re.code c <? 128)%nat.

Definition ascii_text (s : list ascii) : Prop := Forall (fun c => is_ascii c = true) s.


(** An e-mail address [local@domain.tld] or a phone number
    [a sep1 b sep2 c], by their parts. *)
Inductive Token :=
| Address (local domain tld : list ascii)
| Number (a sep1 b sep2 c : list ascii).

Definition token_text (token : Token) : list ascii :=
  match token with
  | Address local domain tld => local ++ "@"%char :: domain ++ "."%char :: tld
  | Number a sep1 b sep2 c => a ++ sep1 ++ b ++ sep2 ++ c
  end.



(** The parts are what the patterns ask for: a local part of characters
    of [A-Za-z0-9._%+-] that starts on a word character, a non-empty domain
    of characters of [A-Za-z0-9.-], a tld of two letters or more; groups of
    three, three and four digits, each separator empty or one of [-.]. *)
Definition token_ok (token : Token) : Prop :=
  match token with
  | Address local domain tld =>
      from_option Re.is_word false (head local) = true
      /\ Forall (fun c => local_char c = true) local
      /\ domain ≠ [] /\ Forall (fun c => domain_char c = true) domain
      /\ 2 <= length tld /\ Forall (fun c => Re.is_alpha c = true) tld
  | Number a sep1 b sep2 c =>
      digits 3 a /\ digits 3 b /\ digits 4 c
      /\ optional_separator sep1 /\ optional_separator sep2
  end.



(** ** AI introduction and moderation (ai_services.py,
    [generate_ai_introduction], [_check_toxicity]) *)

(** [str.strip()] on ASCII text: among the characters of the ASCII range
    Python's whitespace is the codes 9 to 13 and 28 to 32. What is stated
    about [strip] is stated for ASCII text. *)
Definition is_space (c : ascii) : bool := Re.in_range 9 13 c || Re.in_range 28 32 c.

Fixpoint lstrip (s : list ascii) : list ascii :=
  match s with
  | c :: s' => if is_space c then lstrip s' else s
  | [] => []
  end.

Definition rstrip (s : list ascii) : list ascii := reverse (lstrip (reverse s)).

Definition strip (text : string) : string := text_of (rstrip (lstrip (chars text))).

(** Python's [max(x, y1, .., yn)]: the running maximum is replaced by an
    item that compares greater. *)
Definition py_max (x : score) (rest : list score) : score :=
  foldl (fun m y => if (m <? y)%float then y else m) x rest.

(** A member of [active_members]: a dictionary that may lack the key
    [username]. *)
Record Member := { username : option string }.

Record CategoryScores := {
  hate : score;
  harassment : score;
  violence : score;
  sexual : score;
}.

(** The two requests of the introduction: the chat completion, answering
    with [response.choices[0].message.content], and the moderation,
    answering with [response.results[0].category_scores]. *)
Record IntroServices := {
  chat_completion : string -> outcome string;
  moderations_create : string -> outcome CategoryScores;
}.

(** The value [f"{x}"] of an optional string: [None] prints as "None". *)
Definition format_optional (x : option string) : string := default "None" x.

Definition newline : string := String (ascii_of_nat 10) "".

Definition introduction_prompt (user_bio community_name community_description : string)
    (mentioned_member : option string) : string :=
  "Generate a warm 2-3 sentence welcome message." +:+ newline +:+ newline
  +:+ "Community: " +:+ community_name +:+ newline
  +:+ "Description: " +:+ community_description +:+ newline
  +:+ "New Member Bio: " +:+ user_bio +:+ newline
  +:+ "Mention: @" +:+ format_optional mentioned_member +:+ newline +:+ newline
  +:+ "Only return the message text." +:+ newline.

Definition welcome_message (community_name : string) : string :=
  "Welcome to " +:+ community_name +:+ "! We're excited to have you here.".

Section Introduction.

Variable sv : IntroServices.

Definition _check_toxicity (text : string) : score :=
  match moderations_create sv text with
  | Ok scores =>
      py_max (hate scores) [harassment scores; violence scores; sexual scores]
  | Raise _ => 0%float
  end.

(** [active_members[0]["username"] if active_members else None], evaluated
    before the [try] block. *)
Definition mentioned (active_members : list Member) : outcome (option string) :=
  match active_members with
  | [] => Ok None
  | first :: _ =>
      match username first with
      | Some name => Ok (Some name)
      | None => Raise "'username'"
      end
  end.

Definition generate_ai_introduction (user_bio community_name community_description : string)
    (active_members : list Member) : outcome (string * option string * score) :=
  match mentioned active_members with
  | Raise e => Raise e
  | Ok mentioned_member =>
      let prompt :=
        introduction_prompt user_bio community_name community_description
          mentioned_member in
      match chat_completion sv prompt with
      | Ok content =>
          let intro_text := strip content in
          let toxicity_score := _check_toxicity intro_text in
          Ok (intro_text, mentioned_member, toxicity_score)
      | Raise _ => Ok (welcome_message community_name, None, 0%float)
      end
  end.

End Introduction.

(** The order of two finite floats of the same sign: by exponent, then by
    mantissa. *)
Definition lex (e1 : Z) (m1 : positive) (e2 : Z) (m2 : positive) : comparison :=
  match Z.compare e1 e2 with Lt => Lt | Gt => Gt | Eq => Pos.compare m1 m2 end.

Module IntroDemo.

Definition members : list Member :=
  [ {| username := Some "maria" |}; {| username := Some "lee" |} ].

Definition quiet : CategoryScores :=
  {| hate := 0.125%float; harassment := 0.25%float;
     violence := 0.0625%float; sexual := 0.03125%float |}.

(** The chat model answers with blanks around the text. *)
Definition chat_up : IntroServices :=
  {| chat_completion := fun _ => Ok "  Welcome, runner! Say hi to @maria.  ";
     moderations_create := fun _ => Ok quiet |}.

Definition chat_down : IntroServices :=
  {| chat_completion := fun _ => Raise "Connection error.";
     moderations_create := fun _ => Ok quiet |}.

End IntroDemo.

(** ** Seeding the vector index (seed_vectors.py) *)

(** A row of [fetch_all_communities]: [description] is read with
    [community.get('description', '')], the other keys with
    [community['key']]. *)
Record SeedRow := {
  seed_community_id : string;
  seed_community_name : string;
  seed_category : string;
  seed_description : option string;
  seed_city : string;
  seed_timezone : string;
}.

Record Metadata := {
  md_community_id : string;
  md_category : string;
  md_city : string;
  md_timezone : string;
}.

(** A call of [upsert_vector] that returned. *)
Record Upsert := {
  up_vector_id : string;
  up_vector : list score;
  up_metadata : Metadata;
}.

(** The services the seeding talks to. [upsert_vector] answers or raises
    for a request. *)
Record SeedServices := {
  initialize_postgres : outcome unit;
  initialize_pinecone : outcome unit;
  fetch_all_communities : outcome (list SeedRow);
  seed_embedding : string -> outcome (list score);
  upsert_vector : string -> list score -> Metadata -> outcome unit;
}.

Definition seed_payload (community : SeedRow) : string :=
  newline
  +:+ "        Name: " +:+ seed_community_name community +:+ newline
  +:+ "        Category: " +:+ seed_category community +:+ newline
  +:+ "        Description: " +:+ default "" (seed_description community) +:+ newline
  +:+ "        ".

Definition seed_metadata (community : SeedRow) : Metadata :=
  {| md_community_id := seed_community_id community;
     md_category := seed_category community;
     md_city := seed_city community;
     md_timezone := seed_timezone community |}.

Section Seeding.

Variable sv : SeedServices.

(** The [for community in communities] loop, threading the upserts made so
    far, oldest first. *)
Fixpoint seed_loop (communities : list SeedRow) (upserts : list Upsert)
  : outcome unit * list Upsert :=
  match communities with
  | [] => (Ok (), upserts)
  | community :: rest =>
      let payload := seed_payload community in
      match seed_embedding sv payload with
      | Raise e => (Raise e, upserts)
      | Ok vector =>
          let metadata := seed_metadata community in
          match upsert_vector sv (seed_community_id community) vector metadata with
          | Raise e => (Raise e, upserts)
          | Ok _ =>
              seed_loop rest
                (upserts ++ [ {| up_vector_id := seed_community_id community;
                                 up_vector := vector;
                                 up_metadata := metadata |} ])
          end
      end
  end.

Definition seed_community_embeddings : outcome unit * list Upsert :=
  match initialize_postgres sv with
  | Raise e => (Raise e, [])
  | Ok _ =>
      match initialize_pinecone sv with
      | Raise e => (Raise e, [])
      | Ok _ =>
          match fetch_all_communities sv with
          | Raise e => (Raise e, [])
          | Ok communities => seed_loop communities []
          end
      end
  end.

(** The upsert made for a row: its id, the embedding of its payload and
    its four metadata fields, a request that [upsert_vector] answered. *)
Definition seeded_as (community : SeedRow) (upsert : Upsert) : Prop :=
  up_vector_id upsert = seed_community_id community
  /\ seed_embedding sv (seed_payload community) = Ok (up_vector upsert)
  /\ up_metadata upsert = seed_metadata community
  /\ upsert_vector sv (up_vector_id upsert) (up_vector upsert) (up_metadata upsert)
     = Ok ().

(** The request for this row raises [e]: the embedding does, or the
    upsert of the embedding does. *)
Definition seed_fails (community : SeedRow) (e : string) : Prop :=
  seed_embedding sv (seed_payload community) = Raise e
  \/ exists vector,
       seed_embedding sv (seed_payload community) = Ok vector
       /\ upsert_vector sv (seed_community_id community) vector (seed_metadata community)
          = Raise e.

End Seeding.

Module SeedDemo.

Definition row (id name cat city : string) (description : option string) : SeedRow :=
  {| seed_community_id := id; seed_community_name := name; seed_category := cat;
     seed_description := description; seed_city := city;
     seed_timezone := "America/Chicago" |}.

Definition rows : list SeedRow :=
  [ row "c1" "Austin Runners" "sports" "Austin" (Some "Weekly runs");
    row "c2" "Open Mic" "music" "Austin" None;
    row "c3" "Rust Meetup" "tech" "Dallas" (Some "Systems programming") ].

(** The embedding request for the second row fails. *)
Definition sv : SeedServices :=
  {| initialize_postgres := Ok ();
     initialize_pinecone := Ok ();
     fetch_all_communities := Ok rows;
     seed_embedding := fun payload =>
       if decide (payload = seed_payload (row "c2" "Open Mic" "music" "Austin" None))
       then Raise "Rate limit reached"
       else Ok [0.5%float];
     upsert_vector := fun _ _ _ => Ok () |}.

(** Every embedding request answers; the index refuses the third row. *)
Definition sv_upsert : SeedServices :=
  {| initialize_postgres := Ok ();
     initialize_pinecone := Ok ();
     fetch_all_communities := Ok rows;
     seed_embedding := fun _ => Ok [0.5%float];
     upsert_vector := fun vector_id _ _ =>
       if decide (vector_id = "c3") then Raise "Service Unavailable" else Ok () |}.

End SeedDemo.

(** The bio of the sample profile laid out: an address and a number. *)
Module BioDemo.



End BioDemo.

(** * Properties *)

(** ** PII removal on sample texts *)

Example pii_removal_mixed :
  _basic_pii_removal "Mail bob.smith@example.co.uk or call 555-123-4567 now"
  = "Mail [email removed] or call [phone removed] now".
Proof. vm_compute. reflexivity. Qed.

Example pii_removal_plain : _basic_pii_removal "I like hiking, v2.0" = "I like hiking, v2.0".
Proof. vm_compute. reflexivity. Qed.

Example pii_removal_long_number : _basic_pii_removal "id 55512345678" = "id 55512345678".
Proof. vm_compute. reflexivity. Qed.

Example pii_removal_two_mails : _basic_pii_removal "a@b.cd.x@y.zz" = "[email removed][email removed]".
Proof. vm_compute. reflexivity. Qed.

Example pii_removal_samples :
  _basic_pii_removal <$>
    [ "a@b.cd_x@y.zz"; "5551234567.555.123.4567"; "call 555.1234567, (555)123-4567";
      "+1-555-123-4567 x"; "%a@b.cd"; "x 555-123-45678"; "me@host.c"; "me@host.com1";
      "@a.bc"; "a@@b.cd e@f.gh-"; "1234567890a"; "_5551234567"; "555--123-4567"; "" ]
  = [ "a@[email removed]"; "[phone removed].[phone removed]";
      "call [phone removed], (555)123-4567"; "+1-[phone removed] x"; "%[email removed]";
      "x 555-123-45678"; "me@host.c"; "me@host.com1"; "@a.bc";
      "a@@b.cd [email removed]-"; "1234567890a"; "_5551234567"; "555--123-4567"; "" ].
Proof. vm_compute. reflexivity. Qed.

(** ** Text without PII markers is left alone *)

Section RegexFacts.

Implicit Types (s : list ascii) (prev : option ascii) (r : Re.regex).

(** A repetition whose continuation fails everywhere on the rest of the
    text fails. *)
Lemma match_chars_dead_end (P : ascii -> Prop) cls lo hi k prev s :
  Forall P s ->
  (forall prev' s', Forall P s' -> k prev' s' = None) ->
  Re.match_chars cls lo hi k prev s = None.
Proof.
  intros Hs Hk. revert lo hi prev.
  induction Hs as [|c s Hc Hs IH]; intros lo hi prev; simpl.
  - destruct lo; [apply Hk; constructor|done].
  - rewrite IH.
    assert (match lo with 0 => k prev (c :: s) | S _ => None end = None) as ->
      by (destruct lo; [apply Hk; by constructor|done]).
    by destruct (cls c && Re.may_take hi).
Qed.

(** A repetition that needs a character of a class the text does not have
    fails. *)
Lemma match_chars_missing_class cls lo hi k prev s :
  Forall (fun c => cls c = false) s ->
  Re.match_chars cls (S lo) hi k prev s = None.
Proof. intros Hs. destruct Hs as [|c s Hc Hs]; simpl; [done|]. by rewrite Hc. Qed.

Lemma sub_from_no_match (P : ascii -> Prop) r repl prev s :
  Forall P s ->
  (forall prev' s', Forall P s' -> Re.match_here r prev' s' = None) ->
  Re.sub_from r repl prev 0 s = s.
Proof.
  intros Hs Hr. revert prev.
  induction Hs as [|c s Hc Hs IH]; intros prev; simpl; [done|].
  rewrite Hr by (by constructor). by rewrite IH.
Qed.

Lemma sub_no_match (P : ascii -> Prop) r (repl text : string) :
  Forall P (String.list_ascii_of_string text) ->
  (forall prev' s', Forall P s' -> Re.match_here r prev' s' = None) ->
  Re.sub r repl text = text.
Proof.
  intros Hs Hr. unfold Re.sub.
  rewrite (sub_from_no_match P) by done.
  apply String.string_of_list_ascii_of_string.
Qed.

Lemma email_needs_at_sign prev s :
  Forall (fun c => Re.one_of "@" c = false) s -> Re.match_here Re.email prev s = None.
Proof.
  intros Hs. unfold Re.email. simpl.
  destruct (Re.at_boundary prev s); [|done].
  apply (match_chars_dead_end (fun c => Re.one_of "@" c = false)); [done|].
  intros prev' s' Hs'. by apply match_chars_missing_class.
Qed.

Lemma phone_needs_digit prev s :
  Forall (fun c => Re.is_digit c = false) s -> Re.match_here Re.phone prev s = None.
Proof.
  intros Hs. unfold Re.phone. simpl.
  destruct (Re.at_boundary prev s); [|done].
  by apply match_chars_missing_class.
Qed.

(** X9. An ASCII text with no at sign and no digit comes back from the PII
    removal exactly as it is. *)
Theorem pii_removal_keeps_plain_text (text : string) :
  ascii_text (chars text) ->
  Forall plain (chars text) ->
  _basic_pii_removal text = text.
Proof.
  intros _ Hs. unfold _basic_pii_removal.
  rewrite (sub_no_match (fun c => Re.one_of "@" c = false) Re.email).
  - apply (sub_no_match (fun c => Re.is_digit c = false) Re.phone).
    + eapply Forall_impl; [exact Hs|]. by intros c [? _].
    + intros. by apply phone_needs_digit.
  - eapply Forall_impl; [exact Hs|]. by intros c [_ ?].
  - intros. by apply email_needs_at_sign.
Qed.

End RegexFacts.

(** ** Tier thresholds *)

Section TierFacts.

(** Two positive finite floats with the same exponent leave no room for a
    value above the larger and below the smaller mantissa. *)
Lemma SFltb_band (mh ml : positive) (e0 : Z) (x : spec_float) :
  (ml <= mh)%positive ->
  SFltb (S754_finite false mh e0) x = true ->
  SFltb x (S754_finite false ml e0) = true -> False.
Proof.
  intros Hle. unfold SFltb, SFcompare.
  destruct x as [sg|sg| |sg m e]; try (destruct sg; discriminate); try discriminate.
  destruct sg; [discriminate|].
  change (PosDef.Pos.compare_cont Eq) with Pos.compare.
  destruct (Z.compare_spec e0 e); destruct (Z.compare_spec e e0);
    try discriminate; try lia.
  destruct (Pos.compare_spec mh m); destruct (Pos.compare_spec m ml);
    try discriminate; lia.
Qed.

Lemma soulmate_threshold_repr :
  Prim2SF 0.87%float = S754_finite false 7836263351624663 (-53).
Proof. vm_compute. reflexivity. Qed.

Lemma fallback_threshold_repr :
  Prim2SF 0.55%float = S754_finite false 4953959590107546 (-53).
Proof. vm_compute. reflexivity. Qed.

Lemma thresholds_ordered : (4953959590107546 <= 7836263351624663)%positive.
Proof. intro H. vm_compute in H. discriminate H. Qed.

(** No score is both above 0.87 and below 0.55. *)
Lemma tier_bands_disjoint (s : score) :
  (0.87 <? s)%float = true -> (s <? 0.55)%float = true -> False.
Proof.
  rewrite !ltb_spec, soulmate_threshold_repr, fallback_threshold_repr.
  apply SFltb_band, thresholds_ordered.
Qed.

Lemma classify_tier_soulmate (s : score) :
  classify_tier s = SOULMATE <-> (0.87 <? s)%float = true.
Proof.
  unfold classify_tier.
  destruct (0.87 <? s)%float; [tauto|].
  destruct (s <? 0.55)%float; split; discriminate.
Qed.

Lemma classify_tier_fallback (s : score) :
  classify_tier s = FALLBACK <-> (s <? 0.55)%float = true.
Proof.
  unfold classify_tier.
  destruct (0.87 <? s)%float eqn:Hhi.
  - split; [discriminate|]. intros Hlo. destruct (tier_bands_disjoint s Hhi Hlo).
  - destruct (s <? 0.55)%float; split; auto; discriminate.
Qed.

Lemma classify_tier_explorer (s : score) :
  classify_tier s = EXPLORER <->
  (0.87 <? s)%float = false /\ (s <? 0.55)%float = false.
Proof.
  unfold classify_tier.
  destruct (0.87 <? s)%float; destruct (s <? 0.55)%float;
    split; try tauto; try discriminate; intros [? ?]; discriminate.
Qed.

End TierFacts.

(** ** The diversity pass *)

Section DiversityFacts.

Implicit Types (matches rest pre post : list CommunityMatch) (dominant : string).

Lemma Counter_dom (keys : list string) :
  dom (Counter keys) = list_to_set keys.
Proof.
  unfold Counter.
  enough (forall m : gmap string nat,
    dom (foldl (fun m k => <[k := S (default 0 (m !! k))]> m) m keys)
    = list_to_set keys ∪ dom m) as H.
  { rewrite H, dom_empty_L. set_solver. }
  induction keys as [|k keys IH]; intros m; simpl.
  - set_solver.
  - rewrite IH, dom_insert_L. set_solver.
Qed.

(** [len(category_counts) == 1] on three keys: the keys are all equal. *)
Lemma Counter_three_single (a b c : string) :
  size (Counter [a; b; c]) = 1 <-> a = b /\ b = c.
Proof.
  rewrite <- size_dom, Counter_dom. split.
  - intros Hsz. apply size_1_elem_of in Hsz as [x Hx].
    assert (forall y : string, y ∈ [a; b; c] -> y = x) as Hall.
    { intros y Hy. apply (elem_of_singleton (C:=gset string)).
      rewrite <- Hx. by apply elem_of_list_to_set. }
    rewrite (Hall a), (Hall b), (Hall c); [done|set_solver..].
  - intros [-> ->].
    replace (list_to_set [c; c; c] : gset string) with ({[c]} : gset string)
      by set_solver.
    apply size_singleton.
Qed.

Lemma first_diverse_Some dominant start rest i :
  first_diverse dominant start rest = Some i ->
  exists pre d post,
    rest = pre ++ d :: post
    /\ Forall (fun m => cm_category m = dominant) pre
    /\ cm_category d ≠ dominant
    /\ i = start + length pre.
Proof.
  revert start. induction rest as [|m rest IH]; intros start; simpl; [done|].
  case_decide as Hm.
  - intros [= <-]. exists [], m, rest. split_and!; [done|constructor|done|simpl; lia].
  - intros Hi. apply IH in Hi as (pre & d & post & -> & Hpre & Hd & ->).
    exists (m :: pre), d, post. split_and!; [done| |done|simpl; lia].
    constructor; [|done]. by destruct (decide (cm_category m = dominant)).
Qed.

Lemma first_diverse_None dominant start rest :
  first_diverse dominant start rest = None <->
  Forall (fun m => cm_category m = dominant) rest.
Proof.
  revert start. induction rest as [|m rest IH]; intros start; simpl.
  - split; auto.
  - case_decide as Hm.
    + split; [done|]. intros H. by inversion H.
    + rewrite IH. split.
      * intros H. constructor; [|done].
        by destruct (decide (cm_category m = dominant)).
      * intros H. by inversion H.
Qed.

(** The lists on which the pass does something: at least four entries. *)
Lemma apply_diversity_short matches :
  length matches < 4 -> _apply_diversity matches = matches.
Proof. intros Hlen. unfold _apply_diversity. by case_decide. Qed.

Lemma apply_diversity_long a b c x rest :
  _apply_diversity (a :: b :: c :: x :: rest) =
  if decide (cm_category a = cm_category b /\ cm_category b = cm_category c) then
    match first_diverse (cm_category a) 3 (x :: rest) with
    | Some i =>
        match (a :: b :: c :: x :: rest) !! i with
        | Some diverse =>
            list_insert_at 2 diverse (delete i (a :: b :: c :: x :: rest))
        | None => a :: b :: c :: x :: rest
        end
    | None => a :: b :: c :: x :: rest
    end
  else a :: b :: c :: x :: rest.
Proof.
  unfold _apply_diversity.
  case_decide as Hlen; [simpl in Hlen; lia|].
  change (cm_category <$> take 3 (a :: b :: c :: x :: rest))
    with [cm_category a; cm_category b; cm_category c].
  change (drop 3 (a :: b :: c :: x :: rest)) with (x :: rest).
  pose proof (Counter_three_single (cm_category a) (cm_category b) (cm_category c)) as HC.
  repeat case_decide; tauto.
Qed.

Lemma apply_diversity_mixed a b c x rest :
  ¬ (cm_category a = cm_category b /\ cm_category b = cm_category c) ->
  _apply_diversity (a :: b :: c :: x :: rest) = a :: b :: c :: x :: rest.
Proof. intros H. rewrite apply_diversity_long. by case_decide. Qed.

Lemma apply_diversity_monotone a b c x rest :
  cm_category a = cm_category b -> cm_category b = cm_category c ->
  Forall (fun m => cm_category m = cm_category a) (x :: rest) ->
  _apply_diversity (a :: b :: c :: x :: rest) = a :: b :: c :: x :: rest.
Proof.
  intros Hab Hbc Hall. rewrite apply_diversity_long.
  case_decide; [|done].
  by rewrite (proj2 (first_diverse_None _ 3 _) Hall).
Qed.

Lemma first_diverse_prefix dominant start pre d post :
  Forall (fun m => cm_category m = dominant) pre ->
  cm_category d ≠ dominant ->
  first_diverse dominant start (pre ++ d :: post) = Some (start + length pre).
Proof.
  intros Hpre Hd. revert start.
  induction Hpre as [|m pre Hm _ IH]; intros start; simpl.
  - case_decide; [f_equal; lia|done].
  - case_decide; [done|]. rewrite IH. f_equal. lia.
Qed.

Lemma apply_diversity_move a b c pre d post :
  cm_category a = cm_category b -> cm_category b = cm_category c ->
  Forall (fun m => cm_category m = cm_category a) pre ->
  cm_category d ≠ cm_category a ->
  _apply_diversity (a :: b :: c :: pre ++ d :: post) = a :: b :: d :: c :: pre ++ post.
Proof.
  intros Hab Hbc Hpre Hd.
  destruct (pre ++ d :: post) as [|x rest] eqn:Hrest; [by destruct pre|].
  rewrite apply_diversity_long. case_decide; [|tauto].
  rewrite <- Hrest, (first_diverse_prefix _ _ _ _ _ Hpre Hd).
  change (a :: b :: c :: pre ++ d :: post) with ([a; b; c] ++ pre ++ d :: post).
  rewrite (lookup_app_r [a; b; c]) by (simpl; lia).
  replace (3 + length pre - length [a; b; c]) with (length pre + 0) by (simpl; lia).
  rewrite lookup_app_r, Nat.add_comm by lia. simpl.
  replace (S (S (S (length pre))) - 3) with (length pre) by lia.
  rewrite Nat.sub_diag. simpl.
  unfold list_insert_at. simpl. by rewrite delete_middle.
Qed.

Lemma apply_diversity_length matches :
  length (_apply_diversity matches) = length matches.
Proof.
  destruct matches as [|a [|b [|c [|x rest]]]]; try done.
  destruct (decide (cm_category a = cm_category b /\ cm_category b = cm_category c))
    as [[Hab Hbc]|Hmixed]; [|by rewrite apply_diversity_mixed].
  destruct (first_diverse (cm_category a) 3 (x :: rest)) as [i|] eqn:Hi.
  - apply first_diverse_Some in Hi as (pre & d & post & Hrest & Hpre & Hd & _).
    rewrite Hrest, apply_diversity_move by done.
    simpl. rewrite !length_app. simpl. lia.
  - apply first_diverse_None in Hi. by rewrite apply_diversity_monotone.
Qed.

Lemma same_category_three a b c :
  same_category [a; b; c] <->
  cm_category a = cm_category b /\ cm_category b = cm_category c.
Proof.
  unfold same_category. split.
  - intros H. split; apply H; set_solver.
  - intros [Hab Hbc] m m' Hm Hm'.
    assert (forall y, y ∈ [a; b; c] -> cm_category y = cm_category a) as Hall.
    { intros y Hy. set_unfold. destruct Hy as [->|[->|[->|[]]]]; congruence. }
    by rewrite (Hall m), (Hall m').
Qed.

End DiversityFacts.

(** C2. The diversity pass leaves the list as it is when it has fewer than
    four entries, when the categories of the first three are not all equal,
    or when every entry from position 3 on has the category of the top
    entry. In every other case the list is [a; b; c] followed by entries
    [pre] of the dominant category, a first differing entry [d] and the
    rest [post]; the pass returns [a; b; d; c] followed by [pre] and
    [post]: [d] alone has moved, to position 2, the former third entry is
    one slot down, the new top three are not of one category, and the
    other entries keep their order. *)
Theorem apply_diversity_contract (matches : list CommunityMatch) :
  (diversity_noop matches -> _apply_diversity matches = matches)
  /\ (¬ diversity_noop matches ->
      exists a b c pre d post,
        matches = a :: b :: c :: pre ++ d :: post
        /\ cm_category a = cm_category b /\ cm_category b = cm_category c
        /\ Forall (fun m => cm_category m = cm_category a) pre
        /\ cm_category d ≠ cm_category a
        /\ _apply_diversity matches = a :: b :: d :: c :: pre ++ post
        /\ ¬ same_category (take 3 (_apply_diversity matches))
        /\ delete 2 (_apply_diversity matches) = delete (3 + length pre) matches).
Proof.
  unfold diversity_noop, tail_shares_top.
  destruct (decide (length matches < 4)) as [Hshort|Hlong].
  { split; [intros _; by apply apply_diversity_short|]. intros Hn. tauto. }
  destruct matches as [|a [|b [|c [|x rest]]]]; simpl in Hlong; try lia.
  change (take 3 (a :: b :: c :: x :: rest)) with [a; b; c].
  change (drop 3 (a :: b :: c :: x :: rest)) with (x :: rest).
  rewrite same_category_three. simpl head. split.
  - intros [Hlen|[Hmixed|Htail]].
    + simpl in Hlen. lia.
    + by apply apply_diversity_mixed.
    + destruct (decide (cm_category a = cm_category b /\ cm_category b = cm_category c))
        as [[Hab Hbc]|Hmixed]; [|by apply apply_diversity_mixed].
      apply apply_diversity_monotone; [done..|].
      apply Forall_forall. intros m Hm. by apply Htail.
  - intros Hn.
    destruct (decide (cm_category a = cm_category b /\ cm_category b = cm_category c))
      as [[Hab Hbc]|Hmixed]; [|tauto].
    destruct (first_diverse (cm_category a) 3 (x :: rest)) as [i|] eqn:Hi.
    + apply first_diverse_Some in Hi as (pre & d & post & Hrest & Hpre & Hd & _).
      exists a, b, c, pre, d, post. rewrite Hrest.
      rewrite apply_diversity_move by done.
      split_and!; try done.
      * change (take 3 (a :: b :: d :: c :: pre ++ post)) with [a; b; d].
        rewrite same_category_three. intros [_ Hbd]. congruence.
      * simpl. by rewrite delete_middle.
    + apply first_diverse_None in Hi. exfalso. apply Hn. right. right.
      intros top m [= <-] Hm. by apply (proj1 (Forall_forall _ _) Hi).
Qed.

(** ** The merge *)

Section MergeFacts.

Implicit Types (communities : list CommunityRecord) (vs : list VectorMatch).

(** The record the dictionary holds for an id is the last row with it. *)
Lemma build_community_map_lookup communities (id : string) :
  build_community_map communities !! id
  = last (filter (fun c => community_id c = id) communities).
Proof.
  unfold build_community_map.
  enough (forall m : gmap string CommunityRecord,
    foldl (fun m c => <[community_id c := c]> m) m communities !! id
    = match last (filter (fun c => community_id c = id) communities) with
      | Some c => Some c
      | None => m !! id
      end) as H.
  { rewrite H, lookup_empty. by destruct (last _). }
  induction communities as [|c cs IH]; intros m; simpl; [done|].
  rewrite IH, filter_cons. case_decide as Hc.
  - rewrite last_cons. destruct (last (filter _ cs)); [done|].
    by rewrite <- Hc, lookup_insert_eq.
  - destruct (last (filter _ cs)); [done|]. by rewrite lookup_insert_ne.
Qed.

Lemma build_community_map_Some communities (id : string) (c : CommunityRecord) :
  build_community_map communities !! id = Some c ->
  c ∈ communities /\ community_id c = id.
Proof.
  rewrite build_community_map_lookup. intros Hlast.
  apply last_Some_elem_of, list_elem_of_filter in Hlast. tauto.
Qed.

Lemma build_community_map_is_Some communities (id : string) :
  is_Some (build_community_map communities !! id) <->
  id ∈ community_id <$> communities.
Proof.
  split.
  - intros [c Hc]. apply build_community_map_Some in Hc as [Hin <-].
    by apply list_elem_of_fmap_2.
  - intros (c & -> & Hin)%list_elem_of_fmap.
    rewrite build_community_map_lookup.
    assert (c ∈ filter (fun c' => community_id c' = community_id c) communities) as Hf
      by (by apply list_elem_of_filter).
    destruct (filter _ communities) as [|y l] eqn:Hfl using rev_ind; [by inversion Hf|].
    rewrite last_snoc. by eexists.
Qed.

End MergeFacts.

(** C10. The merged list is the ranker's output restricted to the ids that
    occur among the candidates, in the ranker's order: entry by entry it
    carries the id and the score of the vector match, and the name,
    category, member count and recent activity of the candidate record the
    dictionary holds for that id (a row of the candidate list with that
    id). *)
Theorem merge_is_faithful_filter
    (communities : list CommunityRecord) (vector_results : list VectorMatch) :
  let community_map := build_community_map communities in
  let kept :=
    filter (fun v => vm_community_id v ∈ community_id <$> communities) vector_results in
  kept `sublist_of` vector_results
  /\ Forall2
       (fun v e =>
          cm_community_id e = vm_community_id v
          /\ cm_match_score e = vm_match_score v
          /\ exists c,
               community_map !! vm_community_id v = Some c
               /\ c ∈ communities
               /\ community_id c = vm_community_id v
               /\ cm_community_name e = community_name c
               /\ cm_category e = category c
               /\ cm_member_count e = member_count c
               /\ cm_recent_activity e = recent_activity c)
       kept (merge_results community_map vector_results).
Proof.
  intros community_map kept. split; [apply sublist_filter|].
  subst kept. induction vector_results as [|v vs IH]; simpl; [constructor|].
  rewrite filter_cons.
  destruct (community_map !! vm_community_id v) as [c|] eqn:Hc.
  - pose proof (build_community_map_Some _ _ _ Hc) as [Hin Hid].
    case_decide as Hkeep.
    + constructor; [|done]. split_and!; [done..|].
      exists c. by split_and!.
    + exfalso. apply Hkeep. rewrite <- Hid. by apply list_elem_of_fmap_2.
  - case_decide as Hkeep; [|done].
    apply build_community_map_is_Some in Hkeep. fold community_map in Hkeep.
    rewrite Hc in Hkeep. by destruct Hkeep.
Qed.


Lemma merge_results_nil (community_map : gmap string CommunityRecord)
    (vector_results : list VectorMatch) :
  merge_results community_map vector_results = [] <->
  Forall (fun v => community_map !! vm_community_id v = None) vector_results.
Proof.
  induction vector_results as [|v vs IH]; simpl; [by split|].
  destruct (community_map !! vm_community_id v) eqn:Hv.
  - split; [done|]. intros H. inversion H; congruence.
  - rewrite IH. split; [by constructor|]. intros H. by inversion H.
Qed.

Lemma merge_results_length (community_map : gmap string CommunityRecord)
    (vector_results : list VectorMatch) :
  length (merge_results community_map vector_results) <= length vector_results.
Proof.
  induction vector_results as [|v vs IH]; simpl; [done|].
  destruct (community_map !! vm_community_id v); simpl; lia.
Qed.

(** ** Runs of the task *)

Section Runs.

Variable co : Collaborators.
Variables (task_id : string) (user_data : UserProfile).

Local Abbreviation run := (process_match_task co task_id user_data []).
Local Abbreviation text := (embedding_text co user_data).
Local Abbreviation chat_event :=
  (EvChatCompletion (bio user_data) (interest_tags user_data)).

Lemma run_sanitize t :
  sanitize_and_enrich_profile co (bio user_data) (interest_tags user_data) t
  = (Ok (sanitized co user_data), t ++ [chat_event]).
Proof.
  unfold sanitize_and_enrich_profile, sanitized, try_except, call, ret.
  by destruct (chat_enrich co _ _).
Qed.

(** Unfold the task up to the first collaborator after the sanitiser. *)
Ltac start_run :=
  unfold process_match_task, process_match_body, try_except, mbind, M_bind, bind;
  rewrite run_sanitize;
  unfold generate_embedding, call, ret, trace_to_filter, embedding_text in *;
  destruct (sanitized co user_data) as [[sanitized_bio enriched_tags] pii_removed];
  simpl in *.

Lemma run_embedding_raises e :
  embeddings_create co text = Raise e ->
  run = (Ok (Failed task_id e), [chat_event; EvEmbeddingsCreate text]).
Proof. intros Hembed. start_run. by rewrite Hembed. Qed.

Lemma run_cache_raises v e :
  embeddings_create co text = Ok v ->
  set_user_vector co (user_id user_data) v = Raise e ->
  run = (Ok (Failed task_id e),
         [chat_event; EvEmbeddingsCreate text; EvSetUserVector (user_id user_data) v]).
Proof. intros Hembed Hcache. start_run. by rewrite Hembed, Hcache. Qed.

Lemma run_filter_raises v e :
  reaches_filter co user_data v ->
  filter_communities_by_location co (city user_data) (timezone user_data) = Raise e ->
  run = (Ok (Failed task_id e), trace_to_filter co user_data v).
Proof.
  intros [Hembed Hcache] Hfilter. start_run. by rewrite Hembed, Hcache, Hfilter.
Qed.

Lemma run_popular_raises v e :
  fallback_branch co user_data v ->
  get_popular_communities co = Raise e ->
  run = (Ok (Failed task_id e), trace_to_filter co user_data v ++ [EvGetPopular]).
Proof.
  intros [[Hembed Hcache] Hfilter] Hpopular. start_run.
  by rewrite Hembed, Hcache, Hfilter, Hpopular.
Qed.

Lemma run_fallback v popular :
  fallback_branch co user_data v ->
  get_popular_communities co = Ok popular ->
  run = (Ok (Success (fallback_result co task_id user_data popular)),
         trace_to_filter co user_data v ++ [EvGetPopular]).
Proof.
  intros [[Hembed Hcache] Hfilter] Hpopular. start_run.
  by rewrite Hembed, Hcache, Hfilter, Hpopular.
Qed.

Lemma run_search_raises v communities e :
  reaches_filter co user_data v ->
  filter_communities_by_location co (city user_data) (timezone user_data)
  = Ok communities ->
  communities ≠ [] ->
  vector_search co v (community_id <$> communities) 10 = Raise e ->
  run = (Ok (Failed task_id e),
         trace_to_filter co user_data v
         ++ [EvVectorSearch v (community_id <$> communities) 10]).
Proof.
  intros [Hembed Hcache] Hfilter Hne Hsearch. start_run.
  rewrite Hembed, Hcache, Hfilter. destruct communities as [|c cs]; [done|].
  simpl in *. by rewrite Hsearch.
Qed.

Lemma run_merge_empty v communities vector_results :
  vector_branch co user_data v communities vector_results ->
  merge_results (build_community_map communities) vector_results = [] ->
  run = (Ok (Failed task_id "No matching communities after merge"),
         trace_to_filter co user_data v
         ++ [EvVectorSearch v (community_id <$> communities) 10]).
Proof.
  intros ([Hembed Hcache] & Hfilter & Hne & Hsearch) Hmerge. start_run.
  rewrite Hembed, Hcache, Hfilter. destruct communities as [|c cs]; [done|].
  simpl in *. by rewrite Hsearch, Hmerge.
Qed.

Lemma run_ranked v communities vector_results :
  vector_branch co user_data v communities vector_results ->
  let merged := merge_results (build_community_map communities) vector_results in
  let result := ranked_result co task_id user_data merged in
  merged ≠ [] ->
  run = (match publish_match_result co (user_id user_data) result with
         | Ok _ => Ok (Success result)
         | Raise e => Ok (Failed task_id e)
         end,
         trace_to_filter co user_data v
         ++ [EvVectorSearch v (community_id <$> communities) 10;
             EvPublish (user_id user_data) result]).
Proof.
  intros ([Hembed Hcache] & Hfilter & Hne & Hsearch) merged result Hmerged.
  subst result. unfold ranked_result. start_run.
  rewrite Hembed, Hcache, Hfilter. destruct communities as [|c cs]; [done|].
  simpl in *. rewrite Hsearch. fold merged.
  pose proof (apply_diversity_length merged) as Hlen.
  destruct merged as [|m ms]; [done|].
  destruct (_apply_diversity (m :: ms)) as [|top rest]; [done|]. simpl.
  by destruct (publish_match_result co _ _).
Qed.

Lemma aborted_run e :
  aborts_with co task_id user_data e -> run.1 = Ok (Failed task_id e).
Proof.
  intros [He|v He Hc|v Hr Hf|v Hb Hp|v cs Hr Hf Hne Hs|v cs vs Hb merged Hne Hp].
  - by rewrite (run_embedding_raises _ He).
  - by rewrite (run_cache_raises _ _ He Hc).
  - by rewrite (run_filter_raises _ _ Hr Hf).
  - by rewrite (run_popular_raises _ _ Hb Hp).
  - by rewrite (run_search_raises _ _ _ Hr Hf Hne Hs).
  - rewrite (run_ranked _ _ _ Hb Hne). fold merged. by rewrite Hp.
Qed.

(** The four ways a run ends. *)
Lemma run_outcome :
  (exists e, aborts_with co task_id user_data e /\ run.1 = Ok (Failed task_id e))
  \/ (exists v popular,
        fallback_branch co user_data v
        /\ get_popular_communities co = Ok popular
        /\ run.1 = Ok (Success (fallback_result co task_id user_data popular)))
  \/ (exists v communities vector_results,
        vector_branch co user_data v communities vector_results
        /\ merge_results (build_community_map communities) vector_results = []
        /\ run.1 = Ok (Failed task_id "No matching communities after merge"))
  \/ (exists v communities vector_results,
        vector_branch co user_data v communities vector_results
        /\ let merged :=
             merge_results (build_community_map communities) vector_results in
           merged ≠ []
           /\ publish_match_result co (user_id user_data)
                (ranked_result co task_id user_data merged) = Ok ()
           /\ run.1 = Ok (Success (ranked_result co task_id user_data merged))).
Proof.
  assert (forall e, aborts_with co task_id user_data e ->
            exists e, aborts_with co task_id user_data e
                      /\ run.1 = Ok (Failed task_id e)) as Habort
    by (intros e He; exists e; split; [done|by apply aborted_run]).
  destruct (embeddings_create co text) as [v|e] eqn:He;
    [|left; apply (Habort e); by constructor 1].
  destruct (set_user_vector co (user_id user_data) v) as [[]|e] eqn:Hc;
    [|left; apply (Habort e); by econstructor 2].
  assert (reaches_filter co user_data v) as Hr by done.
  destruct (filter_communities_by_location co (city user_data) (timezone user_data))
    as [communities|e] eqn:Hf; [|left; apply (Habort e); by econstructor 3].
  destruct (decide (communities = [])) as [->|Hne].
  { assert (fallback_branch co user_data v) as Hb by done.
    destruct (get_popular_communities co) as [popular|e] eqn:Hp;
      [|left; apply (Habort e); by econstructor 4].
    right; left. exists v, popular. split_and!; [done..|].
    by rewrite (run_fallback _ _ Hb Hp). }
  destruct (vector_search co v (community_id <$> communities) 10)
    as [vector_results|e] eqn:Hs; [|left; apply (Habort e); by econstructor 5].
  assert (vector_branch co user_data v communities vector_results) as Hb by done.
  destruct (decide (merge_results (build_community_map communities) vector_results = []))
    as [Hempty|Hmerged].
  { right; right; left. exists v, communities, vector_results. split_and!; [done..|].
    by rewrite (run_merge_empty _ _ _ Hb Hempty). }
  destruct (publish_match_result co (user_id user_data)
              (ranked_result co task_id user_data
                 (merge_results (build_community_map communities) vector_results)))
    as [[]|e] eqn:Hp; [|left; apply (Habort e); by econstructor 6].
  right; right; right. exists v, communities, vector_results. split_and!; [done..|].
  rewrite (run_ranked _ _ _ Hb Hmerged). by rewrite Hp.
Qed.

End Runs.

(** ** The sample runs *)

Example demo_diversity :
  cm_community_id <$>
    _apply_diversity (merge_results (build_community_map Demo.communities) Demo.ranking)
  = ["c1"; "c2"; "c4"; "c3"; "c5"; "c6"].
Proof. vm_compute. reflexivity. Qed.

Example demo_run :
  (process_match_task Demo.co "task-1" Demo.alice []).1
  = Ok (Success (ranked_result Demo.co "task-1" Demo.alice
                   (merge_results (build_community_map Demo.communities) Demo.ranking))).
Proof. vm_compute. reflexivity. Qed.

Example demo_run_tier :
  mr_tier (ranked_result Demo.co "task-1" Demo.alice
             (merge_results (build_community_map Demo.communities) Demo.ranking))
  = SOULMATE.
Proof. vm_compute. reflexivity. Qed.

Example demo_sanitized :
  sanitized Demo.co Demo.alice
  = ("Trail runner. Write to [email removed] or [phone removed]",
     ["running"; "outdoors"], false).
Proof. vm_compute. reflexivity. Qed.

(** * The claims about the pipeline *)

Ltac sample := repeat split; first [reflexivity | discriminate].

(** C1. On the vector-search branch the tier of the result comes from the
    score of the first entry of the reordered merged list: SOULMATE exactly
    when that score is above 0.87, FALLBACK exactly when it is below 0.55,
    EXPLORER otherwise. The scores 0.87 and 0.55 themselves give EXPLORER,
    0.871 gives SOULMATE and 0.549 gives FALLBACK. *)
Theorem tier_from_best_score (co : Collaborators) (task_id : string)
    (user_data : UserProfile) (v : list score) (communities : list CommunityRecord)
    (vector_results : list VectorMatch) (result : MatchResult) (t : list Event) :
  vector_branch co user_data v communities vector_results ->
  process_match_task co task_id user_data [] = (Ok (Success result), t) ->
  (exists top rest,
     _apply_diversity (merge_results (build_community_map communities) vector_results)
     = top :: rest
     /\ (mr_tier result = SOULMATE <-> (0.87 <? cm_match_score top)%float = true)
     /\ (mr_tier result = FALLBACK <-> (cm_match_score top <? 0.55)%float = true)
     /\ (mr_tier result = EXPLORER <->
         (0.87 <? cm_match_score top)%float = false
         /\ (cm_match_score top <? 0.55)%float = false))
  /\ classify_tier 0.87 = EXPLORER
  /\ classify_tier 0.55 = EXPLORER
  /\ classify_tier 0.871 = SOULMATE
  /\ classify_tier 0.549 = FALLBACK.
Proof.
  intros Hbranch Hrun. split; [|by vm_compute].
  destruct (decide (merge_results (build_community_map communities) vector_results = []))
    as [Hempty|Hmerged].
  { by rewrite (run_merge_empty _ _ _ _ _ _ Hbranch Hempty) in Hrun. }
  rewrite (run_ranked _ _ _ _ _ _ Hbranch Hmerged) in Hrun.
  destruct (publish_match_result _ _ _); [|done].
  injection Hrun as <- _. unfold ranked_result. simpl.
  pose proof (apply_diversity_length
                (merge_results (build_community_map communities) vector_results)) as Hlen.
  destruct (_apply_diversity _) as [|top rest].
  { destruct (merge_results _ _); [done|discriminate]. }
  exists top, rest. simpl.
  split_and!; [done|apply classify_tier_soulmate|apply classify_tier_fallback
              |apply classify_tier_explorer].
Qed.

Lemma tier_from_best_score_witness :
  vector_branch Demo.co Demo.alice Demo.vector Demo.communities Demo.ranking
  /\ exists top rest,
       _apply_diversity
         (merge_results (build_community_map Demo.communities) Demo.ranking)
       = top :: rest
       /\ cm_match_score top = 0.91%float
       /\ (0.87 <? cm_match_score top)%float = true.
Proof.
  assert (vector_branch Demo.co Demo.alice Demo.vector Demo.communities Demo.ranking)
    as Hbranch by sample.
  split; [exact Hbranch|].
  destruct (tier_from_best_score Demo.co "task-1" Demo.alice Demo.vector
              Demo.communities Demo.ranking _ _ Hbranch eq_refl)
    as [(top & rest & Hreordered & Hsoulmate & _) _].
  exists top, rest. split; [exact Hreordered|].
  split; [|apply Hsoulmate; reflexivity].
  vm_compute in Hreordered. by injection Hreordered as <- _.
Defined.

(** C5. When the location filter answers with no candidate the task asks
    for the popular communities and never calls the vector ranker; when
    that answer arrives the payload is a success whose tier is FALLBACK and
    whose matches all have score 0.0, and it is the same payload whatever
    the embedding was. *)
Theorem empty_candidates_take_fallback (co : Collaborators) (task_id : string)
    (user_data : UserProfile) (v : list score) :
  fallback_branch co user_data v ->
  exists out t,
    process_match_task co task_id user_data [] = (out, t)
    /\ EvGetPopular ∈ t
    /\ (forall q ids k, EvVectorSearch q ids k ∉ t)
    /\ forall popular,
         get_popular_communities co = Ok popular ->
         exists result,
           out = Ok (Success result)
           /\ mr_tier result = FALLBACK
           /\ Forall (fun m => cm_match_score m = 0%float) (mr_matches result)
           /\ length (mr_matches result) = length popular
           /\ forall co' v',
                fallback_branch co' user_data v' ->
                get_popular_communities co' = Ok popular ->
                elapsed_ms co' = elapsed_ms co ->
                (process_match_task co' task_id user_data []).1 = Ok (Success result).
Proof.
  intros Hbranch.
  assert (EvGetPopular ∈ trace_to_filter co user_data v ++ [EvGetPopular]
          /\ forall q ids k,
               EvVectorSearch q ids k ∉ trace_to_filter co user_data v ++ [EvGetPopular])
    as [Hpop Hsearch].
  { unfold trace_to_filter. split; [set_solver|].
    intros q ids k Hin. set_unfold. naive_solver. }
  destruct (get_popular_communities co) as [popular|e] eqn:Hpopular.
  - rewrite (run_fallback _ _ _ _ _ Hbranch Hpopular).
    eexists _, _. split_and!; [done..|].
    intros ? [= <-]. eexists. split_and!; [done|done| |by apply length_fmap|].
    + simpl. by apply Forall_fmap, Forall_true.
    + intros co' v' Hbranch' Hpopular' Helapsed.
      rewrite (run_fallback _ _ _ _ _ Hbranch' Hpopular'). simpl.
      unfold fallback_result. by rewrite Helapsed.
  - rewrite (run_popular_raises _ _ _ _ _ Hbranch Hpopular).
    eexists _, _. by split_and!.
Qed.

Lemma empty_candidates_take_fallback_witness :
  fallback_branch Demo.no_candidates Demo.alice Demo.vector
  /\ exists out t,
       process_match_task Demo.no_candidates "task-1" Demo.alice [] = (out, t)
       /\ EvGetPopular ∈ t
       /\ forall q ids k, EvVectorSearch q ids k ∉ t.
Proof.
  assert (fallback_branch Demo.no_candidates Demo.alice Demo.vector) as Hbranch
    by sample.
  split; [exact Hbranch|].
  destruct (empty_candidates_take_fallback Demo.no_candidates "task-1" Demo.alice
              Demo.vector Hbranch) as (out & t & Hrun & Hpop & Hsearch & _).
  by exists out, t.
Defined.

(** C6. On the vector-search branch, when no id of the ranker's answer is
    the id of a candidate, the task ends with the failure payload whose
    error is "No matching communities after merge", without publishing
    anything. The empty-candidate case is another outcome: there the task
    answers with a success payload of tier FALLBACK. *)
Theorem empty_merge_is_fatal (co : Collaborators) (task_id : string)
    (user_data : UserProfile) (v : list score) (communities : list CommunityRecord)
    (vector_results : list VectorMatch) :
  vector_branch co user_data v communities vector_results ->
  Forall (fun x => vm_community_id x ∉ community_id <$> communities) vector_results ->
  merge_results (build_community_map communities) vector_results = []
  /\ process_match_task co task_id user_data []
     = (Ok (Failed task_id "No matching communities after merge"),
        trace_to_filter co user_data v
        ++ [EvVectorSearch v (community_id <$> communities) 10])
  /\ forall co' v' popular,
       fallback_branch co' user_data v' ->
       get_popular_communities co' = Ok popular ->
       exists result,
         (process_match_task co' task_id user_data []).1 = Ok (Success result)
         /\ mr_tier result = FALLBACK.
Proof.
  intros Hbranch Hdisjoint.
  assert (merge_results (build_community_map communities) vector_results = [])
    as Hempty.
  { apply merge_results_nil. eapply Forall_impl; [exact Hdisjoint|].
    intros x Hx. simpl in Hx. apply eq_None_not_Some.
    by rewrite build_community_map_is_Some. }
  split_and!; [done|exact (run_merge_empty _ _ _ _ _ _ Hbranch Hempty)|].
  intros co' v' popular Hbranch' Hpopular.
  rewrite (run_fallback _ _ _ _ _ Hbranch' Hpopular). by eexists.
Qed.

Lemma empty_merge_is_fatal_witness :
  vector_branch Demo.stale_index Demo.alice Demo.vector Demo.communities
    Demo.stale_ranking
  /\ Forall (fun x => vm_community_id x ∉ community_id <$> Demo.communities)
       Demo.stale_ranking
  /\ (process_match_task Demo.stale_index "task-1" Demo.alice []).1
     = Ok (Failed "task-1" "No matching communities after merge").
Proof.
  assert (vector_branch Demo.stale_index Demo.alice Demo.vector Demo.communities
            Demo.stale_ranking) as Hbranch by sample.
  assert (Forall (fun x => vm_community_id x ∉ community_id <$> Demo.communities)
            Demo.stale_ranking) as Hdisjoint.
  { repeat constructor; intros Hin; set_unfold; naive_solver. }
  split_and!; [exact Hbranch|exact Hdisjoint|].
  destruct (empty_merge_is_fatal Demo.stale_index "task-1" Demo.alice Demo.vector
              Demo.communities Demo.stale_ranking Hbranch Hdisjoint)
    as (_ & Hrun & _).
  by rewrite Hrun.
Defined.

(** C9 (the code departs from it). On the structural-fallback branch the
    task returns its result right after building it: the trace of the run
    ends with the request for the popular communities and holds no publish
    call, whereas the vector-search branch publishes the result it
    returns. *)
Theorem fallback_result_is_not_published (co : Collaborators) (task_id : string)
    (user_data : UserProfile) (v : list score) (popular : list PopularRecord) :
  fallback_branch co user_data v ->
  get_popular_communities co = Ok popular ->
  exists t,
    process_match_task co task_id user_data []
    = (Ok (Success (fallback_result co task_id user_data popular)), t)
    /\ last t = Some EvGetPopular
    /\ forall uid result, EvPublish uid result ∉ t.
Proof.
  intros Hbranch Hpopular. rewrite (run_fallback _ _ _ _ _ Hbranch Hpopular).
  eexists. split_and!; [done..|].
  intros uid result Hin. unfold trace_to_filter in Hin. set_unfold. naive_solver.
Qed.

Lemma fallback_result_is_not_published_witness :
  fallback_branch Demo.no_candidates Demo.alice Demo.vector
  /\ get_popular_communities Demo.no_candidates = Ok Demo.popular
  /\ exists t,
       process_match_task Demo.no_candidates "task-1" Demo.alice []
       = (Ok (Success (fallback_result Demo.no_candidates "task-1" Demo.alice
                         Demo.popular)), t)
       /\ forall uid result, EvPublish uid result ∉ t.
Proof.
  assert (fallback_branch Demo.no_candidates Demo.alice Demo.vector) as Hbranch
    by sample.
  split_and!; [exact Hbranch|reflexivity|].
  destruct (fallback_result_is_not_published Demo.no_candidates "task-1" Demo.alice
              Demo.vector Demo.popular Hbranch eq_refl) as (t & Hrun & _ & Hnone).
  by exists t.
Defined.

(** The sibling path: a success on the vector-search branch has been
    published. *)
Lemma ranked_result_is_published (co : Collaborators) (task_id : string)
    (user_data : UserProfile) (v : list score) (communities : list CommunityRecord)
    (vector_results : list VectorMatch) (result : MatchResult) (t : list Event) :
  vector_branch co user_data v communities vector_results ->
  process_match_task co task_id user_data [] = (Ok (Success result), t) ->
  last t = Some (EvPublish (user_id user_data) result).
Proof.
  intros Hbranch Hrun.
  destruct (decide (merge_results (build_community_map communities) vector_results = []))
    as [Hempty|Hmerged].
  { by rewrite (run_merge_empty _ _ _ _ _ _ Hbranch Hempty) in Hrun. }
  rewrite (run_ranked _ _ _ _ _ _ Hbranch Hmerged) in Hrun.
  destruct (publish_match_result _ _ _); [|done].
  by injection Hrun as <- <-.
Qed.

(** C3 (the code departs from it). On the structural-fallback branch every
    row of the popular communities becomes a match and the list is returned
    uncut: when the collaborator returns more than five rows, the success
    payload has more than five matches. *)
Theorem fallback_matches_are_not_capped (co : Collaborators) (task_id : string)
    (user_data : UserProfile) (v : list score) (popular : list PopularRecord) :
  fallback_branch co user_data v ->
  get_popular_communities co = Ok popular ->
  5 < length popular ->
  exists result t,
    process_match_task co task_id user_data [] = (Ok (Success result), t)
    /\ mr_tier result = FALLBACK
    /\ mr_matches result = popular_match <$> popular
    /\ length (mr_matches result) = length popular
    /\ 5 < length (mr_matches result).
Proof.
  intros Hbranch Hpopular Hsix. rewrite (run_fallback _ _ _ _ _ Hbranch Hpopular).
  eexists _, _. split_and!; [done..| |]; cbn [fallback_result mr_matches];
    rewrite length_fmap; [done|lia].
Qed.

Lemma fallback_matches_are_not_capped_witness :
  fallback_branch Demo.no_candidates Demo.alice Demo.vector
  /\ get_popular_communities Demo.no_candidates = Ok Demo.popular
  /\ exists result t,
       process_match_task Demo.no_candidates "task-1" Demo.alice []
       = (Ok (Success result), t)
       /\ length (mr_matches result) = 6.
Proof.
  assert (fallback_branch Demo.no_candidates Demo.alice Demo.vector) as Hbranch
    by sample.
  split_and!; [exact Hbranch|reflexivity|].
  destruct (fallback_matches_are_not_capped Demo.no_candidates "task-1" Demo.alice
              Demo.vector Demo.popular Hbranch eq_refl ltac:(cbn; lia))
    as (result & t & Hrun & _ & _ & Hlength & _).
  exists result, t. split; [exact Hrun|exact Hlength].
Defined.

(** The sibling path: a success payload of the vector-search branch has at
    most five matches, cut from the reordered list, and the ranker was asked
    for [top_k = 10]. *)
Lemma ranked_matches_are_capped (co : Collaborators) (task_id : string)
    (user_data : UserProfile) (v : list score) (communities : list CommunityRecord)
    (vector_results : list VectorMatch) (result : MatchResult) (t : list Event) :
  vector_branch co user_data v communities vector_results ->
  process_match_task co task_id user_data [] = (Ok (Success result), t) ->
  length (mr_matches result) <= 5
  /\ EvVectorSearch v (community_id <$> communities) 10 ∈ t
  /\ (forall q ids k, EvVectorSearch q ids k ∈ t -> k = 10).
Proof.
  intros Hbranch Hrun.
  destruct (decide (merge_results (build_community_map communities) vector_results = []))
    as [Hempty|Hmerged].
  { by rewrite (run_merge_empty _ _ _ _ _ _ Hbranch Hempty) in Hrun. }
  rewrite (run_ranked _ _ _ _ _ _ Hbranch Hmerged) in Hrun.
  destruct (publish_match_result _ _ _); [|done].
  injection Hrun as <- <-. split_and!; [|set_solver|].
  - simpl. rewrite length_take. lia.
  - intros q ids k Hin. unfold trace_to_filter in Hin. set_unfold. naive_solver.
Qed.

(** C4 as the claim has it fails: with the cache write raising, the task
    that would have returned a success payload returns a failure payload
    carrying the message of the exception; so it does with the publish call
    raising. *)
Lemma side_effect_failure_aborts_task :
  (exists result,
     (process_match_task Demo.co "task-1" Demo.alice []).1 = Ok (Success result))
  /\ (process_match_task Demo.cache_down "task-1" Demo.alice []).1
     = Ok (Failed "task-1" "Error 111 connecting to localhost:6379")
  /\ (process_match_task Demo.publish_down "task-1" Demo.alice []).1
     = Ok (Failed "task-1" "Error 111 connecting to localhost:6379").
Proof.
  split_and!; [eexists|..]; vm_compute; reflexivity.
Qed.

(** C4, amended. An exception raised by the cache write, or by the publish
    call, is not handled where it is raised: the outer handler turns it
    into the failure payload carrying its message. The success payload of
    the vector-search branch is returned when the publish call returns. *)
Theorem side_effect_failure_is_reported (co : Collaborators) (task_id : string)
    (user_data : UserProfile) (v : list score) (e : string) :
  embeddings_create co (embedding_text co user_data) = Ok v ->
  (set_user_vector co (user_id user_data) v = Raise e ->
   process_match_task co task_id user_data []
   = (Ok (Failed task_id e),
      [ EvChatCompletion (bio user_data) (interest_tags user_data);
        EvEmbeddingsCreate (embedding_text co user_data);
        EvSetUserVector (user_id user_data) v ]))
  /\ (forall communities vector_results,
        vector_branch co user_data v communities vector_results ->
        let merged := merge_results (build_community_map communities) vector_results in
        let result := ranked_result co task_id user_data merged in
        merged ≠ [] ->
        (publish_match_result co (user_id user_data) result = Raise e ->
         (process_match_task co task_id user_data []).1 = Ok (Failed task_id e))
        /\ (publish_match_result co (user_id user_data) result = Ok () ->
            (process_match_task co task_id user_data []).1 = Ok (Success result))).
Proof.
  intros Hembed. split.
  - intros Hcache. exact (run_cache_raises _ _ _ _ _ Hembed Hcache).
  - intros communities vector_results Hbranch merged result Hmerged.
    rewrite (run_ranked _ _ _ _ _ _ Hbranch Hmerged). fold merged result.
    split; by intros ->.
Qed.

Lemma side_effect_failure_is_reported_witness :
  embeddings_create Demo.cache_down (embedding_text Demo.cache_down Demo.alice)
  = Ok Demo.vector
  /\ set_user_vector Demo.cache_down (user_id Demo.alice) Demo.vector
     = Raise "Error 111 connecting to localhost:6379"
  /\ (process_match_task Demo.cache_down "task-1" Demo.alice []).1
     = Ok (Failed "task-1" "Error 111 connecting to localhost:6379").
Proof.
  split_and!; [reflexivity|reflexivity|].
  destruct (side_effect_failure_is_reported Demo.cache_down "task-1" Demo.alice
              Demo.vector "Error 111 connecting to localhost:6379" eq_refl)
    as [Hcache _].
  by rewrite (Hcache eq_refl).
Defined.

(** C7 as the claim has it fails: an exception whose message is empty, such
    as a time-out of the location query, gives a failure payload whose
    error string is empty. *)
Lemma silent_exception_gives_empty_error :
  (process_match_task Demo.filter_timeout "task-1" Demo.alice []).1
  = Ok (Failed "task-1" "")
  /\ String.length "" = 0.
Proof. split; vm_compute; reflexivity. Qed.

Example embedding_failure_is_reported :
  (process_match_task Demo.embedding_down "task-1" Demo.alice []).1
  = Ok (Failed "task-1" "Connection error.").
Proof. vm_compute. reflexivity. Qed.

(** C7, amended. The task never raises: every run ends with a payload,
    either a result for this task and user or a failure for this task.
    When a collaborator of steps 2 to 6 raises, the payload is the failure
    carrying the message of that exception, whatever it is; the only other
    failure is the empty merge. *)
Theorem task_never_raises (co : Collaborators) (task_id : string)
    (user_data : UserProfile) :
  exists payload t,
    process_match_task co task_id user_data [] = (Ok payload, t)
    /\ well_formed task_id user_data payload
    /\ (forall e, aborts_with co task_id user_data e -> payload = Failed task_id e)
    /\ (forall e, payload = Failed task_id e ->
          aborts_with co task_id user_data e
          \/ e = "No matching communities after merge").
Proof.
  pose proof (aborted_run co task_id user_data) as Haborted.
  destruct (process_match_task co task_id user_data []) as [out t] eqn:Hrun.
  simpl in Haborted.
  destruct (run_outcome co task_id user_data)
    as [(e & Habort & Hout)
       |[(v & popular & _ & _ & Hout)
        |[(v & cs & vs & _ & _ & Hout)|(v & cs & vs & _ & _ & _ & Hout)]]];
    rewrite Hrun in Hout; simpl in Hout; subst out; eexists _, t;
    (split_and!; [done|done| |]).
  - intros e' He'. apply Haborted in He'. congruence.
  - intros e' [= <-]. by left.
  - intros e' He'. apply Haborted in He'. congruence.
  - intros e' [=].
  - intros e' He'. apply Haborted in He'. congruence.
  - intros e' [= <-]. by right.
  - intros e' He'. apply Haborted in He'. congruence.
  - intros e' [=].
Qed.

(** * Further properties of the code *)

(** ** The diversity pass as a reordering *)

Lemma apply_diversity_head (matches : list CommunityMatch) :
  head (_apply_diversity matches) = head matches.
Proof.
  destruct matches as [|a [|b [|c [|x rest]]]]; try done.
  destruct (decide (cm_category a = cm_category b /\ cm_category b = cm_category c))
    as [[Hab Hbc]|Hmixed]; [|by rewrite apply_diversity_mixed].
  destruct (first_diverse (cm_category a) 3 (x :: rest)) as [i|] eqn:Hi.
  - apply first_diverse_Some in Hi as (pre & d & post & Hrest & Hpre & Hd & _).
    by rewrite Hrest, apply_diversity_move.
  - apply first_diverse_None in Hi. by rewrite apply_diversity_monotone.
Qed.

Lemma apply_diversity_submseteq (matches : list CommunityMatch) :
  _apply_diversity matches ⊆+ matches.
Proof.
  destruct matches as [|a [|b [|c [|x rest]]]]; try done.
  destruct (decide (cm_category a = cm_category b /\ cm_category b = cm_category c))
    as [[Hab Hbc]|Hmixed]; [|by rewrite apply_diversity_mixed].
  destruct (first_diverse (cm_category a) 3 (x :: rest)) as [i|] eqn:Hi.
  - apply first_diverse_Some in Hi as (pre & d & post & Hrest & Hpre & Hd & _).
    rewrite Hrest, apply_diversity_move by done.
    apply Permutation_submseteq.
    do 2 f_equiv. exact (Permutation_middle (c :: pre) post d).
  - apply first_diverse_None in Hi. by rewrite apply_diversity_monotone.
Qed.

(** X1. The diversity pass only reorders: its result is a permutation of
    the list it was given, so no match is lost or duplicated. *)
Theorem apply_diversity_permutation (matches : list CommunityMatch) :
  _apply_diversity matches ≡ₚ matches.
Proof.
  destruct matches as [|a [|b [|c [|x rest]]]]; try done.
  destruct (decide (cm_category a = cm_category b /\ cm_category b = cm_category c))
    as [[Hab Hbc]|Hmixed]; [|by rewrite apply_diversity_mixed].
  destruct (first_diverse (cm_category a) 3 (x :: rest)) as [i|] eqn:Hi.
  - apply first_diverse_Some in Hi as (pre & d & post & Hrest & Hpre & Hd & _).
    rewrite Hrest, apply_diversity_move by done.
    do 2 f_equiv. exact (Permutation_middle (c :: pre) post d).
  - apply first_diverse_None in Hi. by rewrite apply_diversity_monotone.
Qed.

(** X2. The diversity pass never touches the first two positions: the best
    match and the runner-up stay where the merge put them. *)
Theorem apply_diversity_keeps_leaders (matches : list CommunityMatch) :
  take 2 (_apply_diversity matches) = take 2 matches
  /\ head (_apply_diversity matches) = head matches.
Proof.
  destruct matches as [|a [|b [|c [|x rest]]]]; try done.
  destruct (decide (cm_category a = cm_category b /\ cm_category b = cm_category c))
    as [[Hab Hbc]|Hmixed]; [|by rewrite apply_diversity_mixed].
  destruct (first_diverse (cm_category a) 3 (x :: rest)) as [i|] eqn:Hi.
  - apply first_diverse_Some in Hi as (pre & d & post & Hrest & Hpre & Hd & _).
    by rewrite Hrest, apply_diversity_move.
  - apply first_diverse_None in Hi. by rewrite apply_diversity_monotone.
Qed.

(** X3. Running the diversity pass on its own result changes nothing. *)
Theorem apply_diversity_idempotent (matches : list CommunityMatch) :
  _apply_diversity (_apply_diversity matches) = _apply_diversity matches.
Proof.
  destruct matches as [|a [|b [|c [|x rest]]]]; try done.
  destruct (decide (cm_category a = cm_category b /\ cm_category b = cm_category c))
    as [[Hab Hbc]|Hmixed]; [|by rewrite !apply_diversity_mixed].
  destruct (first_diverse (cm_category a) 3 (x :: rest)) as [i|] eqn:Hi.
  - apply first_diverse_Some in Hi as (pre & d & post & Hrest & Hpre & Hd & _).
    rewrite Hrest, apply_diversity_move by done.
    apply apply_diversity_mixed. intros [_ Hbd]. congruence.
  - apply first_diverse_None in Hi. by rewrite !apply_diversity_monotone.
Qed.

(** ** The calls of a run *)

Lemma run_shape (co : Collaborators) (task_id : string) (user_data : UserProfile) :
  run_ends co task_id user_data (process_match_task co task_id user_data []).
Proof.
  destruct (embeddings_create co (embedding_text co user_data)) as [v|e] eqn:He.
  2: { rewrite (run_embedding_raises _ _ _ _ He). by apply ends_embedding_raises. }
  destruct (set_user_vector co (user_id user_data) v) as [[]|e] eqn:Hc.
  2: { rewrite (run_cache_raises _ _ _ _ _ He Hc). by apply ends_cache_raises. }
  assert (reaches_filter co user_data v) as Hr by done.
  destruct (filter_communities_by_location co (city user_data) (timezone user_data))
    as [communities|e] eqn:Hf.
  2: { rewrite (run_filter_raises _ _ _ _ _ Hr Hf). by apply ends_filter_raises. }
  destruct (decide (communities = [])) as [->|Hne].
  { assert (fallback_branch co user_data v) as Hb by done.
    destruct (get_popular_communities co) as [popular|e] eqn:Hp.
    - rewrite (run_fallback _ _ _ _ _ Hb Hp). by apply ends_fallback.
    - rewrite (run_popular_raises _ _ _ _ _ Hb Hp). by apply ends_popular_raises. }
  destruct (vector_search co v (community_id <$> communities) 10)
    as [vector_results|e] eqn:Hs.
  2: { rewrite (run_search_raises _ _ _ _ _ _ Hr Hf Hne Hs). by apply ends_search_raises. }
  assert (vector_branch co user_data v communities vector_results) as Hb by done.
  destruct (decide (merge_results (build_community_map communities) vector_results = []))
    as [Hempty|Hmerged].
  { rewrite (run_merge_empty _ _ _ _ _ _ Hb Hempty). by eapply ends_merge_empty. }
  rewrite (run_ranked _ _ _ _ _ _ Hb Hmerged).
  destruct (publish_match_result co (user_id user_data) _) as [[]|e] eqn:Hp.
  - by eapply ends_ranked.
  - by eapply ends_publish_raises.
Qed.






(** X5. Whatever a run publishes is a result of this task for this user
    with between one and five matches; when the publish call returns, that
    same result is the payload of the task, and when it raises, the payload
    is the failure carrying the exception. *)
Theorem published_result_is_returned (co : Collaborators) (task_id : string)
    (user_data : UserProfile) (uid : string) (result : MatchResult) :
  EvPublish uid result ∈ (process_match_task co task_id user_data []).2 ->
  uid = user_id user_data
  /\ mr_task_id result = task_id
  /\ mr_user_id result = user_id user_data
  /\ 1 <= length (mr_matches result) <= 5
  /\ match publish_match_result co uid result with
     | Ok _ => (process_match_task co task_id user_data []).1 = Ok (Success result)
     | Raise e => (process_match_task co task_id user_data []).1 = Ok (Failed task_id e)
     end.
Proof.
  assert (forall merged : list CommunityMatch, merged ≠ [] ->
            1 <= length (mr_matches (ranked_result co task_id user_data merged)) <= 5)
    as Hbounds.
  { intros merged Hne. unfold ranked_result. cbn [mr_matches].
    rewrite length_take, apply_diversity_length.
    destruct merged as [|m ms]; [done|]. cbn [length]. lia. }
  destruct (run_shape co task_id user_data) as
    [e He|v e He Hc|v e Hr Hf|v e Hb Hp|v popular Hb Hp|v cs e Hr Hf Hne Hs
    |v cs vs Hb Hempty|v cs vs e Hb merged r Hne Hp|v cs vs Hb merged r Hne Hp];
    simpl; unfold trace_to_filter; intros Hin;
    try (set_unfold; naive_solver).
  - assert (uid = user_id user_data /\ result = r) as [-> ->]
      by (set_unfold; naive_solver).
    rewrite Hp. split_and!; try done; by apply Hbounds.
  - assert (uid = user_id user_data /\ result = r) as [-> ->]
      by (set_unfold; naive_solver).
    rewrite Hp. split_and!; try done; by apply Hbounds.
Qed.

Lemma published_result_is_returned_witness :
  EvPublish "u-1"
    (ranked_result Demo.co "task-1" Demo.alice
       (merge_results (build_community_map Demo.communities) Demo.ranking))
  ∈ (process_match_task Demo.co "task-1" Demo.alice []).2
  /\ length (mr_matches
               (ranked_result Demo.co "task-1" Demo.alice
                  (merge_results (build_community_map Demo.communities) Demo.ranking)))
     <= 5.
Proof.
  assert (EvPublish "u-1"
            (ranked_result Demo.co "task-1" Demo.alice
               (merge_results (build_community_map Demo.communities) Demo.ranking))
          ∈ (process_match_task Demo.co "task-1" Demo.alice []).2) as Hin.
  { vm_compute. do 5 apply list_elem_of_further. apply list_elem_of_here. }
  split; [exact Hin|].
  destruct (published_result_is_returned Demo.co "task-1" Demo.alice _ _ Hin)
    as (_ & _ & _ & [_ Hfive] & _).
  exact Hfive.
Defined.

(** ** What the merge hands on *)

Lemma elem_of_merge_results (community_map : gmap string CommunityRecord)
    (vector_results : list VectorMatch) (e : CommunityMatch) :
  e ∈ merge_results community_map vector_results <->
  exists v c,
    v ∈ vector_results /\ community_map !! vm_community_id v = Some c /\ e = enrich v c.
Proof.
  induction vector_results as [|x vs IH]; simpl.
  - split; [by intros ?%elem_of_nil|]. intros (v & c & Hv & _). by apply elem_of_nil in Hv.
  - destruct (community_map !! vm_community_id x) as [cx|] eqn:Hx.
    + rewrite elem_of_cons, IH. split.
      * intros [->|(v & c & Hv & Hc & ->)].
        -- exists x, cx. split_and!; [left|done..].
        -- exists v, c. split_and!; [by right|done..].
      * intros (v & c & [->|Hv]%elem_of_cons & Hc & ->).
        -- left. congruence.
        -- right. by exists v, c.
    + rewrite IH. split.
      * intros (v & c & Hv & Hc & ->). exists v, c. split_and!; [by right|done..].
      * intros (v & c & [->|Hv]%elem_of_cons & Hc & ->); [congruence|].
        by exists v, c.
Qed.

(** The first merged entry comes from the first vector match whose id the
    dictionary knows. *)
Lemma merge_results_head (community_map : gmap string CommunityRecord)
    (vector_results : list VectorMatch) (e : CommunityMatch) (rest : list CommunityMatch) :
  merge_results community_map vector_results = e :: rest ->
  exists before v after c,
    vector_results = before ++ v :: after
    /\ Forall (fun x => community_map !! vm_community_id x = None) before
    /\ community_map !! vm_community_id v = Some c
    /\ e = enrich v c.
Proof.
  induction vector_results as [|x vs IH]; simpl; [done|].
  destruct (community_map !! vm_community_id x) as [cx|] eqn:Hx.
  - intros [= <- <-]. by exists [], x, vs, cx.
  - intros (before & v & after & c & -> & Hbefore & Hv & ->)%IH.
    exists (x :: before), v, after, c. split_and!; [done| |done..].
    by constructor.
Qed.

(** X6. On the vector-search branch the tier of a success payload is the
    class of the score of the first entry of the ranker's answer whose id
    is the id of a candidate, and that entry is the first match of the
    payload: entries before it with unknown ids are passed over, and the
    diversity pass does not move it. *)
Theorem tier_follows_first_known_match (co : Collaborators) (task_id : string)
    (user_data : UserProfile) (v : list score) (communities : list CommunityRecord)
    (vector_results : list VectorMatch) (result : MatchResult) (t : list Event) :
  vector_branch co user_data v communities vector_results ->
  process_match_task co task_id user_data [] = (Ok (Success result), t) ->
  exists before first after,
    vector_results = before ++ first :: after
    /\ Forall (fun x => vm_community_id x ∉ community_id <$> communities) before
    /\ vm_community_id first ∈ community_id <$> communities
    /\ mr_tier result = classify_tier (vm_match_score first)
    /\ cm_community_id <$> head (mr_matches result) = Some (vm_community_id first)
    /\ cm_match_score <$> head (mr_matches result) = Some (vm_match_score first).
Proof.
  intros Hbranch Hrun.
  destruct (merge_results (build_community_map communities) vector_results)
    as [|e rest] eqn:Hmerge.
  { by rewrite (run_merge_empty _ _ _ _ _ _ Hbranch Hmerge) in Hrun. }
  assert (merge_results (build_community_map communities) vector_results ≠ [])
    as Hne by (by rewrite Hmerge).
  rewrite (run_ranked _ _ _ _ _ _ Hbranch Hne) in Hrun.
  destruct (publish_match_result _ _ _); [|done].
  injection Hrun as <- _.
  destruct (merge_results_head _ _ _ _ Hmerge)
    as (before & first & after & c & Hvs & Hbefore & Hfirst & ->).
  exists before, first, after. split_and!; [done| | | | |].
  - eapply Forall_impl; [exact Hbefore|]. intros x Hx. simpl in Hx.
    rewrite <- build_community_map_is_Some, Hx. by intros [? ?].
  - apply build_community_map_is_Some. by eexists.
  - unfold ranked_result. simpl.
    rewrite (apply_diversity_head
               (merge_results (build_community_map communities) vector_results)).
    by rewrite Hmerge.
  - unfold ranked_result. simpl.
    pose proof (apply_diversity_head
                  (merge_results (build_community_map communities) vector_results))
      as Hhead.
    rewrite Hmerge in Hhead. rewrite Hmerge.
    destruct (_apply_diversity (enrich first c :: rest)) as [|top more]; [done|].
    simpl in *. by injection Hhead as ->.
  - unfold ranked_result. simpl.
    pose proof (apply_diversity_head
                  (merge_results (build_community_map communities) vector_results))
      as Hhead.
    rewrite Hmerge in Hhead. rewrite Hmerge.
    destruct (_apply_diversity (enrich first c :: rest)) as [|top more]; [done|].
    simpl in *. by injection Hhead as ->.
Qed.

Lemma tier_follows_first_known_match_witness :
  exists result t,
    process_match_task Demo.co "task-1" Demo.alice [] = (Ok (Success result), t)
    /\ vector_branch Demo.co Demo.alice Demo.vector Demo.communities Demo.ranking
    /\ exists first,
         first ∈ Demo.ranking /\ mr_tier result = classify_tier (vm_match_score first).
Proof.
  assert (vector_branch Demo.co Demo.alice Demo.vector Demo.communities Demo.ranking)
    as Hbranch by sample.
  eexists _, _. split; [reflexivity|]. split; [exact Hbranch|].
  destruct (tier_follows_first_known_match Demo.co "task-1" Demo.alice Demo.vector
              Demo.communities Demo.ranking _ _ Hbranch eq_refl)
    as (before & first & after & Hvs & _ & _ & Htier & _).
  exists first. split; [|exact Htier].
  rewrite Hvs. apply elem_of_app. right. apply list_elem_of_here.
Defined.

(** X7. On the vector-search branch the matches of a success payload are
    taken from the merged list without repetition (as a multiset they are
    contained in it), and each of them carries the id, name, category,
    member count and activity of a candidate the location filter returned
    and the score the ranker gave that id. *)
Theorem matches_come_from_candidates (co : Collaborators) (task_id : string)
    (user_data : UserProfile) (v : list score) (communities : list CommunityRecord)
    (vector_results : list VectorMatch) (result : MatchResult) (t : list Event) :
  vector_branch co user_data v communities vector_results ->
  process_match_task co task_id user_data [] = (Ok (Success result), t) ->
  mr_matches result ⊆+ merge_results (build_community_map communities) vector_results
  /\ Forall
       (fun m =>
          exists c x,
            c ∈ communities /\ x ∈ vector_results
            /\ cm_community_id m = community_id c
            /\ cm_community_id m = vm_community_id x
            /\ cm_match_score m = vm_match_score x
            /\ cm_community_name m = community_name c
            /\ cm_category m = category c
            /\ cm_member_count m = member_count c
            /\ cm_recent_activity m = recent_activity c)
       (mr_matches result).
Proof.
  intros Hbranch Hrun.
  destruct (decide (merge_results (build_community_map communities) vector_results = []))
    as [Hempty|Hmerged].
  { by rewrite (run_merge_empty _ _ _ _ _ _ Hbranch Hempty) in Hrun. }
  rewrite (run_ranked _ _ _ _ _ _ Hbranch Hmerged) in Hrun.
  destruct (publish_match_result _ _ _); [|done].
  injection Hrun as <- _. unfold ranked_result. cbn [mr_matches].
  assert (take 5 (_apply_diversity
                    (merge_results (build_community_map communities) vector_results))
          ⊆+ merge_results (build_community_map communities) vector_results) as Hsub.
  { etrans; [apply submseteq_take|]. apply apply_diversity_submseteq. }
  split; [exact Hsub|].
  apply Forall_forall. intros m Hm.
  apply (elem_of_submseteq _ _ _ Hm) in Hsub.
  apply elem_of_merge_results in Hsub as (x & c & Hx & Hc & ->).
  apply build_community_map_Some in Hc as [Hc Hid].
  exists c, x. by split_and!.
Qed.

Lemma matches_come_from_candidates_witness :
  exists result t,
    process_match_task Demo.co "task-1" Demo.alice [] = (Ok (Success result), t)
    /\ vector_branch Demo.co Demo.alice Demo.vector Demo.communities Demo.ranking
    /\ mr_matches result
       ⊆+ merge_results (build_community_map Demo.communities) Demo.ranking.
Proof.
  assert (vector_branch Demo.co Demo.alice Demo.vector Demo.communities Demo.ranking)
    as Hbranch by sample.
  eexists _, _. split; [reflexivity|]. split; [exact Hbranch|].
  exact (proj1 (matches_come_from_candidates Demo.co "task-1" Demo.alice Demo.vector
                  Demo.communities Demo.ranking _ _ Hbranch eq_refl)).
Defined.

(** X8. When several candidate rows carry the same community id, the
    dictionary keeps the last of them: every merged entry has the name,
    category, member count and activity of the last candidate row with its
    id. *)
Theorem merge_uses_last_duplicate (communities : list CommunityRecord)
    (vector_results : list VectorMatch) (e : CommunityMatch) :
  e ∈ merge_results (build_community_map communities) vector_results ->
  exists c,
    last (filter (fun c' => community_id c' = cm_community_id e) communities) = Some c
    /\ cm_community_name e = community_name c
    /\ cm_category e = category c
    /\ cm_member_count e = member_count c
    /\ cm_recent_activity e = recent_activity c.
Proof.
  intros (v & c & _ & Hc & ->)%elem_of_merge_results.
  rewrite build_community_map_lookup in Hc. by exists c.
Qed.

Lemma merge_uses_last_duplicate_witness :
  enrich {| vm_community_id := "c1"; vm_match_score := 0.9%float |}
    (Demo.community "c1" "Austin Runners" "sports" 120)
  ∈ merge_results
      (build_community_map
         [ Demo.community "c1" "Austin Joggers" "fitness" 12;
           Demo.community "c1" "Austin Runners" "sports" 120 ])
      [ {| vm_community_id := "c1"; vm_match_score := 0.9%float |} ]
  /\ exists c,
       last (filter (fun c' => community_id c' = "c1")
               [ Demo.community "c1" "Austin Joggers" "fitness" 12;
                 Demo.community "c1" "Austin Runners" "sports" 120 ]) = Some c
       /\ community_name c = "Austin Runners".
Proof.
  assert (enrich {| vm_community_id := "c1"; vm_match_score := 0.9%float |}
            (Demo.community "c1" "Austin Runners" "sports" 120)
          ∈ merge_results
              (build_community_map
                 [ Demo.community "c1" "Austin Joggers" "fitness" 12;
                   Demo.community "c1" "Austin Runners" "sports" 120 ])
              [ {| vm_community_id := "c1"; vm_match_score := 0.9%float |} ]) as Hin.
  { vm_compute. apply list_elem_of_here. }
  split; [exact Hin|].
  destruct (merge_uses_last_duplicate _ _ _ Hin) as (c & Hlast & Hname & _).
  exists c. split; [exact Hlast|]. symmetry. exact Hname.
Defined.

(** ** What the two patterns remove *)

Section PhoneFacts.

Implicit Types (s run : list ascii) (prev : option ascii) (r : Re.regex).

Lemma match_chars_head_mismatch cls lo hi k prev c s :
  cls c = false -> Re.match_chars cls (S lo) hi k prev (c :: s) = None.
Proof. intros Hc. simpl. by rewrite Hc. Qed.

Lemma digit_is_word c : Re.is_digit c = true -> Re.is_word c = true.
Proof.
  intros H. unfold Re.is_word, Re.is_alnum. rewrite H.
  by rewrite orb_true_r.
Qed.

Lemma digit_is_no_separator c : Re.is_digit c = true -> Re.one_of "-." c = false.
Proof.
  intros H. unfold Re.one_of. simpl.
  destruct (Ascii.eqb_spec c "-") as [->|_]; [by vm_compute in H|].
  destruct (Ascii.eqb_spec c ".") as [->|_]; [by vm_compute in H|]. done.
Qed.

Lemma digit_is_no_at_sign c : Re.is_digit c = true -> Re.one_of "@" c = false.
Proof.
  intros H. unfold Re.one_of. simpl.
  destruct (Ascii.eqb_spec c "@") as [->|_]; [by vm_compute in H|]. done.
Qed.

Lemma separator_is_no_at_sign c : Re.one_of "-." c = true -> Re.one_of "@" c = false.
Proof.
  unfold Re.one_of. simpl.
  destruct (Ascii.eqb_spec c "-") as [->|_]; [done|].
  destruct (Ascii.eqb_spec c ".") as [->|_]; [done|]. done.
Qed.

(** Exactly [n] characters of a class [cls{n}], then the continuation. *)
Lemma match_chars_exact cls n k prev run s :
  length run = n -> Forall (fun c => cls c = true) run ->
  Re.match_chars cls n (Some n) k prev (run ++ s)
  = (fun m => n + m) <$> k (if last run is Some c then Some c else prev) s.
Proof.
  intros Hlen Hrun. revert n prev Hlen.
  induction Hrun as [|c run Hc Hrun IH]; intros n prev Hlen; simpl in Hlen; subst n.
  - destruct s; simpl; rewrite ?andb_false_r; by destruct (k prev _).
  - simpl. rewrite Hc. simpl. rewrite IH by done.
    rewrite last_cons. destruct (last run) as [c'|]; by destruct (k _ s).
Qed.

Lemma match_chars_optional_absent cls k prev s :
  from_option cls false (head s) = false ->
  Re.match_chars cls 0 (Some 1) k prev s = k prev s.
Proof. destruct s as [|c s]; simpl; [done|]. by intros ->. Qed.

Lemma match_chars_optional_present cls k prev c s n :
  cls c = true -> k (Some c) s = Some n ->
  Re.match_chars cls 0 (Some 1) k prev (c :: s) = Some (S n).
Proof.
  intros Hc Hk. simpl. rewrite Hc. simpl.
  destruct s as [|c' s]; simpl; rewrite ?andb_false_r; by rewrite Hk.
Qed.

Lemma match_chars_optional cls k prev sep s n :
  sep = [] \/ (exists c, sep = [c] /\ cls c = true) ->
  from_option cls false (head s) = false ->
  (forall prev', k prev' s = Some n) ->
  Re.match_chars cls 0 (Some 1) k prev (sep ++ s) = Some (length sep + n).
Proof.
  intros [->|(c & -> & Hc)] Hs Hk; simpl app.
  - by rewrite match_chars_optional_absent.
  - by apply match_chars_optional_present.
Qed.

Lemma digits_head n run s :
  digits (S n) run -> exists c, head (run ++ s) = Some c /\ Re.is_digit c = true.
Proof. intros [Hlen Hrun]. destruct Hrun as [|c run Hc _]; [done|]. by exists c. Qed.

Lemma digits_last n run prev :
  digits (S n) run ->
  exists c, (if last run is Some c' then Some c' else prev) = Some c
            /\ Re.is_digit c = true.
Proof.
  intros [Hlen Hrun]. destruct (last run) as [c|] eqn:Hlast.
  - exists c. split; [done|].
    apply last_Some_elem_of in Hlast. by apply (proj1 (Forall_forall _ _) Hrun).
  - apply last_None in Hlast. by subst.
Qed.

(** The phone pattern matches a whole phone-shaped token that stands
    between non-word characters. *)
Lemma phone_matches_token prev a sep1 b sep2 c post :
  non_word prev -> non_word (head post) ->
  digits 3 a -> digits 3 b -> digits 4 c ->
  optional_separator sep1 -> optional_separator sep2 ->
  Re.match_here Re.phone prev (a ++ sep1 ++ b ++ sep2 ++ c ++ post)
  = Some (length (a ++ sep1 ++ b ++ sep2 ++ c)).
Proof.
  intros Hprev Hpost Ha Hb Hc Hsep1 Hsep2.
  unfold Re.phone. cbn [Re.match_here].
  assert (Re.at_boundary prev (a ++ sep1 ++ b ++ sep2 ++ c ++ post) = true) as ->.
  { unfold Re.at_boundary. red in Hprev. rewrite Hprev.
    destruct (digits_head 2 a (sep1 ++ b ++ sep2 ++ c ++ post) Ha) as (x & -> & Hx).
    simpl. by rewrite digit_is_word. }
  assert (forall prev', Re.match_chars Re.is_digit 4 (Some 4)
            (fun prev s => if Re.at_boundary prev s then Some 0 else None)
            prev' (c ++ post) = Some (4 + 0)) as H4.
  { intros prev'. rewrite match_chars_exact by apply Hc.
    destruct (digits_last 3 c prev' Hc) as (x & -> & Hx).
    unfold Re.at_boundary. simpl. rewrite (digit_is_word x Hx).
    red in Hpost. by rewrite Hpost. }
  assert (forall prev', Re.match_chars (Re.one_of "-.") 0 (Some 1)
            (Re.match_chars Re.is_digit 4 (Some 4)
              (fun prev s => if Re.at_boundary prev s then Some 0 else None))
            prev' (sep2 ++ c ++ post) = Some (length sep2 + (4 + 0))) as H3.
  { intros prev'. apply match_chars_optional; [done| |done].
    destruct (digits_head 3 c post Hc) as (x & -> & Hx).
    by apply digit_is_no_separator. }
  assert (forall prev', Re.match_chars Re.is_digit 3 (Some 3)
            (Re.match_chars (Re.one_of "-.") 0 (Some 1)
              (Re.match_chars Re.is_digit 4 (Some 4)
                (fun prev s => if Re.at_boundary prev s then Some 0 else None)))
            prev' (b ++ sep2 ++ c ++ post) = Some (3 + (length sep2 + (4 + 0)))) as H2.
  { intros prev'. rewrite match_chars_exact by apply Hb. by rewrite H3. }
  rewrite match_chars_exact by apply Ha.
  erewrite match_chars_optional; [|done| |exact H2].
  - simpl. f_equal. destruct Ha as [Ha _], Hb as [Hb _], Hc as [Hc _].
    rewrite !length_app, Ha, Hb, Hc. lia.
  - destruct (digits_head 2 b (sep2 ++ c ++ post) Hb) as (x & -> & Hx).
    by apply digit_is_no_separator.
Qed.

Lemma phone_needs_leading_digit prev c s :
  Re.is_digit c = false -> Re.match_here Re.phone prev (c :: s) = None.
Proof.
  intros Hc. unfold Re.phone. cbn [Re.match_here].
  destruct (Re.at_boundary prev (c :: s)); [|done].
  by apply match_chars_head_mismatch.
Qed.

(** Where no match can start, the text is copied. *)
Lemma sub_from_copies r repl prev pre rest :
  Forall (fun c => forall prev' s', Re.match_here r prev' (c :: s') = None) pre ->
  Re.sub_from r repl prev 0 (pre ++ rest)
  = pre ++ Re.sub_from r repl (if last pre is Some c then Some c else prev) 0 rest.
Proof.
  intros Hpre. revert prev.
  induction Hpre as [|c pre Hc Hpre IH]; intros prev; [done|].
  simpl. rewrite Hc, IH, last_cons. by destruct (last pre).
Qed.

(** The characters of a match are dropped. *)
Lemma sub_from_skips r repl prev token rest :
  Re.sub_from r repl prev (length token) (token ++ rest)
  = Re.sub_from r repl (if last token is Some c then Some c else prev) 0 rest.
Proof.
  revert prev. induction token as [|c token IH]; intros prev; [done|].
  simpl. rewrite IH, last_cons. by destruct (last token).
Qed.

Lemma sub_from_replaces r repl prev token rest :
  token ≠ [] ->
  Re.match_here r prev (token ++ rest) = Some (length token) ->
  Re.sub_from r repl prev 0 (token ++ rest)
  = repl ++ Re.sub_from r repl (last token) 0 rest.
Proof.
  intros Hne Hmatch. destruct token as [|c token]; [done|].
  change ((c :: token) ++ rest) with (c :: (token ++ rest)) in *.
  cbn [Re.sub_from]. rewrite Hmatch. cbn [length].
  rewrite sub_from_skips, last_cons. by destruct (last token).
Qed.

Lemma text_of_chars (s : list ascii) : chars (text_of s) = s.
Proof. apply String.list_ascii_of_string_of_list_ascii. Qed.

(** X10. A phone number ddd[-.]ddd[-.]dddd (each separator optional) that
    stands between non-word characters, in an ASCII text that has no other
    digit and no at sign, is replaced by [[phone removed]] and the rest of
    the text is kept as it is. *)
Theorem phone_number_is_redacted pre a sep1 b sep2 c post :
  ascii_text pre -> ascii_text post ->
  Forall plain pre -> Forall plain post ->
  non_word (last pre) -> non_word (head post) ->
  digits 3 a -> digits 3 b -> digits 4 c ->
  optional_separator sep1 -> optional_separator sep2 ->
  _basic_pii_removal (text_of (pre ++ a ++ sep1 ++ b ++ sep2 ++ c ++ post))
  = text_of (pre ++ chars "[phone removed]" ++ post).
Proof.
  intros _ _ Hpre Hpost Hedge1 Hedge2 Ha Hb Hc Hsep1 Hsep2.
  assert (Forall (fun x => Re.one_of "@" x = false)
            (pre ++ a ++ sep1 ++ b ++ sep2 ++ c ++ post)) as Hat.
  { assert (forall n l, digits n l -> Forall (fun x => Re.one_of "@" x = false) l)
      as Hdigits.
    { intros n l [_ Hl]. eapply Forall_impl; [exact Hl|].
      intros x. apply digit_is_no_at_sign. }
    assert (forall l, optional_separator l ->
              Forall (fun x => Re.one_of "@" x = false) l) as Hseps.
    { intros l [->|(x & -> & Hx)]; [done|].
      constructor; [by apply separator_is_no_at_sign|done]. }
    rewrite !Forall_app. split_and!; eauto.
    - eapply Forall_impl; [exact Hpre|]. by intros x [_ ?].
    - eapply Forall_impl; [exact Hpost|]. by intros x [_ ?]. }
  unfold _basic_pii_removal.
  rewrite (sub_no_match (fun x => Re.one_of "@" x = false) Re.email);
    [|by rewrite (text_of_chars _)|intros; by apply email_needs_at_sign].
  unfold Re.sub. fold (chars (text_of (pre ++ a ++ sep1 ++ b ++ sep2 ++ c ++ post))).
  rewrite text_of_chars. f_equal.
  rewrite sub_from_copies.
  2: { eapply Forall_impl; [exact Hpre|]. intros x [Hx _] prev' s'.
       by apply phone_needs_leading_digit. }
  f_equal.
  assert (a ++ sep1 ++ b ++ sep2 ++ c ++ post
          = (a ++ sep1 ++ b ++ sep2 ++ c) ++ post) as -> by (by rewrite <- !app_assoc).
  rewrite sub_from_replaces.
  - f_equal. apply (sub_from_no_match (fun x => Re.is_digit x = false)).
    + eapply Forall_impl; [exact Hpost|]. by intros x [? _].
    + intros. by apply phone_needs_digit.
  - destruct Ha as [Ha _]. destruct a; [done|done].
  - rewrite <- !app_assoc. apply phone_matches_token; try done.
    red. by destruct (last pre).
Qed.

Example phone_number_is_redacted_sample :
  _basic_pii_removal "Call me: 512.555-0100, thanks" = "Call me: [phone removed], thanks".
Proof. vm_compute. reflexivity. Qed.

End PhoneFacts.

Section EmailFacts.

Implicit Types (s run keep give : list ascii) (prev : option ascii).

(** A greedy unbounded repetition over a run of the class, when the match
    goes on from the end of the run. *)
Lemma match_chars_greedy cls lo k prev run s n :
  Forall (fun c => cls c = true) run -> lo <= length run ->
  Re.match_chars cls 0 None k (if last run is Some c then Some c else prev) s = Some n ->
  Re.match_chars cls lo None k prev (run ++ s) = Some (length run + n).
Proof.
  intros Hrun. revert lo prev.
  induction Hrun as [|c run Hc Hrun IH]; intros lo prev Hlo Hend.
  - simpl in Hlo. by replace lo with 0 by lia.
  - cbn [app Re.match_chars]. rewrite Hc. cbn [Re.may_take andb fmap option_fmap option_map].
    rewrite (IH (pred lo) (Some c)); [done|simpl in Hlo; lia|].
    rewrite last_cons in Hend. by destruct (last run).
Qed.

(** The repetition fails when the continuation fails wherever it could be
    tried: after any number of characters of the run. *)
Lemma match_chars_all_fail cls lo k prev give s :
  from_option cls false (head s) = false ->
  (forall g1 g2 prev', give = g1 ++ g2 -> k prev' (g2 ++ s) = None) ->
  Re.match_chars cls lo None k prev (give ++ s) = None.
Proof.
  intros Hs. revert lo prev.
  induction give as [|c give IH]; intros lo prev Hk.
  - cbn [app]. destruct s as [|x s]; simpl in *.
    + destruct lo; [|done]. exact (Hk [] [] prev eq_refl).
    + rewrite Hs. simpl. destruct lo; [|done]. exact (Hk [] [] prev eq_refl).
  - cbn [app Re.match_chars].
    rewrite IH.
    + assert (match lo with 0 => k prev (c :: give ++ s) | S _ => None end = None) as ->
        by (destruct lo; [exact (Hk [] (c :: give) prev eq_refl)|done]).
      by destruct (cls c && Re.may_take None).
    + intros g1 g2 prev' ->. exact (Hk (c :: g1) g2 prev' eq_refl).
Qed.

(** Backtracking: the repetition gives back the characters [give] when the
    continuation fails everywhere after them and succeeds before them. *)
Lemma match_chars_gives_back cls k prev give s n :
  from_option cls false (head s) = false ->
  k prev (give ++ s) = Some n ->
  (forall g1 g2 prev', give = g1 ++ g2 -> g1 ≠ [] -> k prev' (g2 ++ s) = None) ->
  Re.match_chars cls 0 None k prev (give ++ s) = Some n.
Proof.
  intros Hs Hhere Hlater. destruct give as [|c give].
  - cbn [app] in *. destruct s as [|x s]; simpl in *; [done|]. by rewrite Hs.
  - cbn [app] in Hhere. cbn [app Re.match_chars].
    rewrite match_chars_all_fail; [|done|].
    + rewrite Hhere. by destruct (cls c && Re.may_take None).
    + intros g1 g2 prev' ->. by apply (Hlater (c :: g1) g2 prev').
Qed.

Lemma alpha_is_word c : Re.is_alpha c = true -> Re.is_word c = true.
Proof. intros H. unfold Re.is_word, Re.is_alnum. by rewrite H. Qed.

Lemma alpha_is_no_dot c : Re.is_alpha c = true -> Re.one_of "." c = false.
Proof.
  intros H. unfold Re.one_of. simpl.
  destruct (Ascii.eqb_spec c ".") as [->|_]; [by vm_compute in H|]. done.
Qed.

Lemma alpha_is_domain_char c : Re.is_alpha c = true -> domain_char c = true.
Proof. intros H. unfold domain_char, Re.is_alnum. by rewrite H. Qed.

Lemma non_domain_char_is_no_dot c : domain_char c = false -> Re.one_of "." c = false.
Proof.
  unfold domain_char, Re.one_of. simpl.
  destruct (Ascii.eqb_spec c ".") as [->|_]; [|done].
  intros H. by vm_compute in H.
Qed.

Lemma non_word_is_no_alpha c : Re.is_word c = false -> Re.is_alpha c = false.
Proof.
  unfold Re.is_word, Re.is_alnum. destruct (Re.is_alpha c); [done|done].
Qed.

Lemma non_local_char_is_no_word c : local_char c = false -> Re.is_word c = false.
Proof.
  unfold local_char, Re.is_word, Re.one_of. simpl.
  destruct (Re.is_alnum c); [done|]. simpl.
  destruct (Ascii.eqb_spec c "_") as [->|_]; [|done].
  intros H. by vm_compute in H.
Qed.

Lemma local_char_is_no_at_sign c : local_char c = true -> Re.one_of "@" c = false.
Proof.
  intros H. unfold Re.one_of. simpl.
  destruct (Ascii.eqb_spec c "@") as [->|_]; [by vm_compute in H|]. done.
Qed.

(** The e-mail pattern matches a whole address that stands between a
    character it cannot start on and one it cannot go on with. *)
Lemma email_matches_token prev local domain tld post :
  non_word prev ->
  from_option (fun c => domain_char c || Re.is_word c) false (head post) = false ->
  from_option Re.is_word false (head local) = true ->
  Forall (fun c => local_char c = true) local ->
  domain ≠ [] -> Forall (fun c => domain_char c = true) domain ->
  2 <= length tld -> Forall (fun c => Re.is_alpha c = true) tld ->
  Re.match_here Re.email prev (local ++ "@"%char :: domain ++ "."%char :: tld ++ post)
  = Some (length (local ++ "@"%char :: domain ++ "."%char :: tld)).
Proof.
  intros Hprev Hpost Hfirst Hlocal Hdomain_ne Hdomain Htld_len Htld.
  set (k5 := fun (prev : option ascii) (s : list ascii) =>
               if Re.at_boundary prev s then Some 0 else None).
  set (k4 := Re.match_chars Re.is_alpha 2 None k5).
  set (k3 := Re.match_chars (Re.one_of ".") 1 (Some 1) k4).
  set (k2 := Re.match_chars domain_char 1 None k3).
  set (k1 := Re.match_chars (Re.one_of "@") 1 (Some 1) k2).
  assert (from_option domain_char false (head post) = false
          /\ from_option Re.is_word false (head post) = false) as [Hpost_d Hpost_w].
  { destruct (head post) as [y|]; [|done]. simpl in *.
    by apply orb_false_elim in Hpost. }
  assert (exists z, last tld = Some z /\ Re.is_alpha z = true) as (z & Hz & Hzalpha).
  { destruct (last tld) as [z|] eqn:Hlast.
    - exists z. split; [done|]. apply last_Some_elem_of in Hlast.
      by apply (proj1 (Forall_forall _ _) Htld).
    - apply last_None in Hlast. subst. simpl in Htld_len. lia. }
  assert (forall prev', k4 prev' (tld ++ post) = Some (length tld + 0)) as H4.
  { intros prev'. apply match_chars_greedy; [done..|].
    rewrite Hz.
    assert (Re.match_chars Re.is_alpha 0 None k5 (Some z) post = k5 (Some z) post) as ->.
    { destruct post as [|y post]; [done|]. simpl in *.
      by rewrite (non_word_is_no_alpha y Hpost_w). }
    unfold k5, Re.at_boundary. simpl. rewrite (alpha_is_word z Hzalpha).
    by rewrite Hpost_w. }
  assert (forall prev', k3 prev' ("."%char :: tld ++ post)
                        = Some (1 + (length tld + 0))) as H3.
  { intros prev'. unfold k3.
    change ("."%char :: tld ++ post) with (["."%char] ++ tld ++ post).
    rewrite match_chars_exact; [|done|by repeat constructor].
    by rewrite H4. }
  assert (forall g1 g2 prev', "."%char :: tld = g1 ++ g2 -> g1 ≠ [] ->
            k3 prev' (g2 ++ post) = None) as H3fail.
  { intros g1 g2 prev' Hsplit Hg1. destruct g1 as [|d g1]; [done|].
    injection Hsplit as _ Hsplit. unfold k3.
    destruct g2 as [|x g2].
    - destruct post as [|y post]; [done|]. cbn [app].
      apply match_chars_head_mismatch. by apply non_domain_char_is_no_dot.
    - cbn [app]. apply match_chars_head_mismatch, alpha_is_no_dot.
      apply (proj1 (Forall_forall _ _) Htld). rewrite Hsplit. set_solver. }
  assert (forall prev', k2 prev' (domain ++ "."%char :: tld ++ post)
                        = Some (length domain + (1 + (length tld + 0)))) as H2.
  { intros prev'. unfold k2. apply match_chars_greedy; [done| |].
    - destruct domain; [done|simpl; lia].
    - change ("."%char :: tld ++ post) with (("."%char :: tld) ++ post).
      apply match_chars_gives_back; [done| |done].
      apply H3. }
  assert (forall prev', k1 prev' ("@"%char :: domain ++ "."%char :: tld ++ post)
                        = Some (1 + (length domain + (1 + (length tld + 0))))) as H1.
  { intros prev'. unfold k1.
    change ("@"%char :: domain ++ "."%char :: tld ++ post)
      with (["@"%char] ++ domain ++ "."%char :: tld ++ post).
    rewrite match_chars_exact; [|done|by repeat constructor].
    by rewrite H2. }
  unfold Re.email. cbn [Re.match_here].
  fold k5. fold k4. fold k3. fold domain_char. fold k2. fold k1. fold local_char.
  assert (Re.at_boundary prev (local ++ "@"%char :: domain ++ "."%char :: tld ++ post)
          = true) as ->.
  { unfold Re.at_boundary. red in Hprev. rewrite Hprev.
    destruct local as [|x local]; [done|]. simpl in *. by rewrite Hfirst. }
  rewrite (match_chars_greedy local_char 1 k1 prev local _
             (1 + (length domain + (1 + (length tld + 0))))); [|done| |].
  - f_equal. rewrite !length_app. simpl. rewrite !length_app. simpl. lia.
  - destruct local; [done|simpl; lia].
  - cbn [Re.match_chars]. apply H1.
Qed.

(** The repetition cannot get past a character outside the class; it fails
    when the continuation fails on every character up to that one. *)
Lemma match_chars_blocked cls lo hi k prev q bl s :
  cls bl = false ->
  (forall x prev' s', x ∈ q ++ [bl] -> k prev' (x :: s') = None) ->
  Re.match_chars cls lo hi k prev (q ++ bl :: s) = None.
Proof.
  intros Hbl. revert lo hi prev.
  induction q as [|c q IH]; intros lo hi prev Hk.
  - cbn [app Re.match_chars]. rewrite Hbl. cbn [andb].
    destruct lo; [|done]. apply Hk. set_solver.
  - cbn [app Re.match_chars]. rewrite IH.
    + assert (match lo with 0 => k prev (c :: q ++ bl :: s) | S _ => None end = None)
        as -> by (destruct lo; [apply Hk; set_solver|done]).
      by destruct (cls c && Re.may_take hi).
    + intros x prev' s' Hx. apply Hk. set_solver.
Qed.

(** No address starts in a text without at sign that ends on a character
    an address cannot contain before its at sign. *)
Lemma email_cannot_start_before prev q bl s :
  local_char bl = false ->
  Forall (fun c => Re.one_of "@" c = false) (q ++ [bl]) ->
  Re.match_here Re.email prev (q ++ bl :: s) = None.
Proof.
  intros Hbl Hat. unfold Re.email. cbn [Re.match_here]. fold local_char.
  destruct (Re.at_boundary prev (q ++ bl :: s)); [|done].
  apply match_chars_blocked; [done|].
  intros x prev' s' Hx. apply match_chars_head_mismatch.
  by apply (proj1 (Forall_forall _ _) Hat).
Qed.

(** Where no match starts, the text is copied; the rest of the text
    counts, since a match may reach into it. *)
Lemma sub_from_copies_prefix r repl prev pre rest :
  (forall p1 p2 prev', pre = p1 ++ p2 -> p2 ≠ [] ->
     Re.match_here r prev' (p2 ++ rest) = None) ->
  Re.sub_from r repl prev 0 (pre ++ rest)
  = pre ++ Re.sub_from r repl (if last pre is Some c then Some c else prev) 0 rest.
Proof.
  revert prev. induction pre as [|c pre IH]; intros prev Hpre; [done|].
  pose proof (Hpre [] (c :: pre) prev eq_refl) as Hhere.
  cbn [app] in Hhere. cbn [app Re.sub_from].
  rewrite Hhere by done.
  rewrite IH, last_cons.
  - by destruct (last pre).
  - intros p1 p2 prev' -> Hp2. by apply (Hpre (c :: p1) p2 prev').
Qed.

(** X11. An e-mail address local@domain.tld (a tld of two letters or
    more) in an ASCII text that has no other at sign and no digit around it
    is replaced by [[email removed]] and the rest of the text is kept as it
    is. The address starts on a word character, after the start of the
    text or a character an address cannot contain, and ends before the end
    of the text or a character that is neither a word character nor a dot
    or hyphen. *)
Theorem email_address_is_redacted pre local domain tld post :
  ascii_text pre -> ascii_text post ->
  Forall plain pre -> Forall plain post ->
  from_option local_char false (last pre) = false ->
  from_option (fun c => domain_char c || Re.is_word c) false (head post) = false ->
  from_option Re.is_word false (head local) = true ->
  Forall (fun c => local_char c = true) local ->
  domain ≠ [] -> Forall (fun c => domain_char c = true) domain ->
  2 <= length tld -> Forall (fun c => Re.is_alpha c = true) tld ->
  _basic_pii_removal
    (text_of (pre ++ local ++ "@"%char :: domain ++ "."%char :: tld ++ post))
  = text_of (pre ++ chars "[email removed]" ++ post).
Proof.
  intros _ _ Hpre Hpost Hedge1 Hedge2 Hfirst Hlocal Hdomain_ne Hdomain Htld_len Htld.
  set (token := local ++ "@"%char :: domain ++ "."%char :: tld).
  assert (local ++ "@"%char :: domain ++ "."%char :: tld ++ post = token ++ post)
    as Htoken.
  { unfold token. rewrite <- !app_assoc. simpl. by rewrite <- !app_assoc. }
  rewrite Htoken.
  assert (Re.sub Re.email "[email removed]" (text_of (pre ++ token ++ post))
          = text_of (pre ++ chars "[email removed]" ++ post)) as Hemail.
  { unfold Re.sub. fold (chars (text_of (pre ++ token ++ post))).
    rewrite text_of_chars. f_equal.
    rewrite sub_from_copies_prefix.
    - f_equal. rewrite sub_from_replaces.
      + f_equal. apply (sub_from_no_match (fun x => Re.one_of "@" x = false)).
        * eapply Forall_impl; [exact Hpost|]. by intros x [_ ?].
        * intros. by apply email_needs_at_sign.
      + unfold token. by destruct local.
      + rewrite <- Htoken. unfold token. apply email_matches_token; try done.
        red. destruct (last pre) as [x|]; [|done].
        by apply non_local_char_is_no_word.
    - intros p1 p2 prev' Hsplit Hp2.
      destruct p2 as [|y p2 _] using rev_ind; [done|].
      assert (last pre = Some y) as Hlast
        by (by rewrite Hsplit, app_assoc, last_snoc).
      rewrite Hlast in Hedge1. simpl in Hedge1.
      rewrite <- app_assoc. cbn [app].
      apply email_cannot_start_before; [done|].
      assert (Forall plain (p2 ++ [y])) as Hp
        by (rewrite Hsplit in Hpre; by apply Forall_app in Hpre as [_ ?]).
      eapply Forall_impl; [exact Hp|]. by intros x [_ ?]. }
  unfold _basic_pii_removal. rewrite Hemail.
  apply (sub_no_match (fun x => Re.is_digit x = false)).
  - fold (chars (text_of (pre ++ chars "[email removed]" ++ post))).
    rewrite text_of_chars, !Forall_app. split_and!.
    + eapply Forall_impl; [exact Hpre|]. by intros x [? _].
    + by repeat constructor.
    + eapply Forall_impl; [exact Hpost|]. by intros x [? _].
  - intros. by apply phone_needs_digit.
Qed.

End EmailFacts.

Ltac chars_ok := repeat (constructor; [by vm_compute|]); constructor.

Lemma pii_removal_keeps_plain_text_witness :
  _basic_pii_removal "Trail runner, cook & reader" = "Trail runner, cook & reader".
Proof.
  apply (pii_removal_keeps_plain_text "Trail runner, cook & reader").
  - cbn; chars_ok.
  - cbn; chars_ok.
Defined.

Lemma phone_number_is_redacted_witness :
  _basic_pii_removal "Call me: 512.555-0100, thanks"
  = "Call me: [phone removed], thanks".
Proof.
  apply (phone_number_is_redacted (chars "Call me: ") (chars "512") (chars ".")
           (chars "555") (chars "-") (chars "0100") (chars ", thanks")).
  - cbn; chars_ok.
  - cbn; chars_ok.
  - cbn; chars_ok.
  - cbn; chars_ok.
  - reflexivity.
  - reflexivity.
  - split; [reflexivity|cbn; chars_ok].
  - split; [reflexivity|cbn; chars_ok].
  - split; [reflexivity|cbn; chars_ok].
  - right. eexists. split; reflexivity.
  - right. eexists. split; reflexivity.
Defined.

Lemma email_address_is_redacted_witness :
  _basic_pii_removal "Write to alice.b@mail.example.org soon"
  = "Write to [email removed] soon".
Proof.
  apply (email_address_is_redacted (chars "Write to ") (chars "alice.b")
           (chars "mail.example") (chars "org") (chars " soon")).
  - cbn; chars_ok.
  - cbn; chars_ok.
  - cbn; chars_ok.
  - cbn; chars_ok.
  - reflexivity.
  - reflexivity.
  - reflexivity.
  - cbn; chars_ok.
  - discriminate.
  - cbn; chars_ok.
  - cbn; lia.
  - cbn; chars_ok.
Defined.

(** ** Every delimited address and number is replaced *)

Section LayoutFacts.

Implicit Types (s block gap : list ascii) (prev : option ascii)
  (pieces : list (Token * list ascii)).





Lemma token_text_nonempty token : token_ok token -> token_text token ≠ [].
Proof.
  destruct token as [local domain tld|a sep1 b sep2 c]; simpl.
  - intros _. by destruct local.
  - intros ([Ha _] & _). by destruct a.
Qed.







End LayoutFacts.




(** ** The introduction and its moderation *)

Example strip_samples :
  strip <$> ["  hi there  "; "x"; "   "; ""; " a b "; newline +:+ "ok" +:+ newline]
  = ["hi there"; "x"; ""; ""; "a b"; "ok"].
Proof. vm_compute. reflexivity. Qed.

Section FloatOrder.

Lemma lex_Lt e1 m1 e2 m2 :
  lex e1 m1 e2 m2 = Lt <-> (e1 < e2)%Z \/ (e1 = e2 /\ (m1 < m2)%positive).
Proof.
  unfold lex. destruct (Z.compare_spec e1 e2) as [He|He|He].
  - rewrite Pos.compare_lt_iff. split; [auto|]. intros [H|[_ H]]; [lia|done].
  - split; [auto|reflexivity].
  - split; [discriminate|]. intros [H|[H _]]; lia.
Qed.

Lemma lex_Gt e1 m1 e2 m2 :
  lex e1 m1 e2 m2 = Gt <-> (e2 < e1)%Z \/ (e1 = e2 /\ (m2 < m1)%positive).
Proof.
  unfold lex. destruct (Z.compare_spec e1 e2) as [He|He|He].
  - rewrite Pos.compare_gt_iff. split; [auto|]. intros [H|[_ H]]; [lia|done].
  - split; [discriminate|]. intros [H|[H _]]; lia.
  - split; [auto|reflexivity].
Qed.

Lemma SFcompare_finite s1 m1 e1 s2 m2 e2 :
  SFcompare (S754_finite s1 m1 e1) (S754_finite s2 m2 e2)
  = Some match s1, s2 with
         | true, false => Lt
         | false, true => Gt
         | false, false => lex e1 m1 e2 m2
         | true, true => CompOpp (lex e1 m1 e2 m2)
         end.
Proof.
  unfold SFcompare, lex. change (PosDef.Pos.compare_cont Eq) with Pos.compare.
  destruct s1, s2; try reflexivity. destruct (e1 ?= e2)%Z; reflexivity.
Qed.

Lemma SFltb_irrefl (x : spec_float) : SFltb x x = false.
Proof.
  unfold SFltb. destruct x as [[]|[]| |s m e]; try reflexivity.
  rewrite SFcompare_finite. unfold lex.
  rewrite Z.compare_refl, Pos.compare_refl. destruct s; reflexivity.
Qed.

Lemma SFltb_finite s1 m1 e1 s2 m2 e2 :
  SFltb (S754_finite s1 m1 e1) (S754_finite s2 m2 e2) = true <->
  match s1, s2 with
  | true, false => True
  | false, true => False
  | false, false => (e1 < e2)%Z \/ (e1 = e2 /\ (m1 < m2)%positive)
  | true, true => (e2 < e1)%Z \/ (e1 = e2 /\ (m2 < m1)%positive)
  end.
Proof.
  unfold SFltb. rewrite SFcompare_finite.
  destruct s1, s2.
  - rewrite <- lex_Gt. destruct (lex e1 m1 e2 m2); simpl; split; congruence.
  - split; auto.
  - split; [discriminate|tauto].
  - rewrite <- lex_Lt. destruct (lex e1 m1 e2 m2); simpl; split; congruence.
Qed.

Lemma SFltb_trans (x y z : spec_float) :
  SFltb x y = true -> SFltb y z = true -> SFltb x z = true.
Proof.
  destruct x as [[]|[]| |sx mx ex], y as [[]|[]| |sy my ey], z as [[]|[]| |sz mz ez];
    try (intros; reflexivity); try (intros; discriminate);
    try (destruct sx; intros; (reflexivity || discriminate));
    try (destruct sy; intros; (reflexivity || discriminate));
    try (destruct sz; intros; (reflexivity || discriminate));
    try (destruct sx, sy; intros; (reflexivity || discriminate));
    try (destruct sy, sz; intros; (reflexivity || discriminate));
    try (destruct sx, sz; intros; (reflexivity || discriminate)).
  rewrite !SFltb_finite. destruct sx, sy, sz; try tauto; lia.
Qed.

Lemma float_ltb_irrefl (x : score) : (x <? x)%float = false.
Proof. rewrite ltb_spec. apply SFltb_irrefl. Qed.

Lemma float_ltb_trans (x y z : score) :
  (x <? y)%float = true -> (y <? z)%float = true -> (x <? z)%float = true.
Proof. rewrite !ltb_spec. apply SFltb_trans. Qed.

(** Nothing is above the running maximum of Python's [max]. *)
Lemma py_max_upper (x : score) (rest : list score) :
  (py_max x rest <? x)%float = false
  /\ Forall (fun y => (py_max x rest <? y)%float = false) rest.
Proof.
  unfold py_max.
  enough (forall (seen : list score) (m : score),
            Forall (fun y => (m <? y)%float = false) seen ->
            Forall (fun y => (foldl (fun m y => if (m <? y)%float then y else m) m rest
                              <? y)%float = false) (seen ++ rest)) as H.
  { specialize (H [x] x). cbn [app] in H.
    apply Forall_cons in H as [? ?]; [done|].
    constructor; [apply float_ltb_irrefl|done]. }
  induction rest as [|y rest IH]; intros seen m Hseen; cbn [foldl].
  - by rewrite app_nil_r.
  - replace (seen ++ y :: rest) with ((seen ++ [y]) ++ rest) by (by rewrite <- app_assoc).
    apply IH. apply Forall_app. destruct (m <? y)%float eqn:Hmy.
    + split; [|by repeat constructor; apply float_ltb_irrefl].
      eapply Forall_impl; [exact Hseen|]. intros z Hz. cbn beta in Hz.
      destruct (y <? z)%float eqn:Hyz; [|done].
      by rewrite (float_ltb_trans m y z Hmy Hyz) in Hz.
    + split; [done|by repeat constructor].
Qed.

Lemma py_max_elem (x : score) (rest : list score) : py_max x rest ∈ x :: rest.
Proof.
  unfold py_max. revert x. induction rest as [|y rest IH]; intros x; cbn [foldl].
  - set_solver.
  - destruct (x <? y)%float.
    + specialize (IH y). set_solver.
    + specialize (IH x). set_solver.
Qed.

End FloatOrder.

Section StripFacts.

Implicit Types (s : list ascii).

Lemma lstrip_suffix s : lstrip s `suffix_of` s.
Proof.
  induction s as [|c s IH]; simpl; [done|].
  destruct (is_space c); [by apply suffix_cons_r|done].
Qed.

Lemma lstrip_head s : from_option is_space false (head (lstrip s)) = false.
Proof.
  induction s as [|c s IH]; simpl; [done|].
  destruct (is_space c) eqn:Hc; [done|]. simpl. by rewrite Hc.
Qed.

Lemma rstrip_prefix s : rstrip s `prefix_of` s.
Proof.
  unfold rstrip. apply prefix_suffix_reverse.
  rewrite reverse_involutive. apply lstrip_suffix.
Qed.

Lemma rstrip_last s : from_option is_space false (last (rstrip s)) = false.
Proof. unfold rstrip. rewrite last_reverse. apply lstrip_head. Qed.

Lemma rstrip_head s :
  from_option is_space false (head s) = false ->
  from_option is_space false (head (rstrip s)) = false.
Proof.
  intros Hs. destruct (rstrip_prefix s) as [k Hk].
  destruct (rstrip s) as [|c r]; [done|]. rewrite Hk in Hs. done.
Qed.

Lemma strip_edges (text : string) :
  from_option is_space false (head (chars (strip text))) = false
  /\ from_option is_space false (last (chars (strip text))) = false.
Proof.
  unfold strip. rewrite text_of_chars. split.
  - apply rstrip_head, lstrip_head.
  - apply rstrip_last.
Qed.

End StripFacts.

(** X12. The toxicity score is the highest of the four category scores of
    the moderation answer: it is one of them and none of them is greater;
    when the moderation request fails the score is 0.0. *)
Theorem toxicity_is_highest_score (sv : IntroServices) (text : string) :
  match moderations_create sv text with
  | Ok scores =>
      let all := [hate scores; harassment scores; violence scores; sexual scores] in
      _check_toxicity sv text ∈ all
      /\ Forall (fun y => (_check_toxicity sv text <? y)%float = false) all
  | Raise _ => _check_toxicity sv text = 0%float
  end.
Proof.
  unfold _check_toxicity. destruct (moderations_create sv text) as [scores|e]; [|done].
  cbv zeta. split; [apply py_max_elem|].
  destruct (py_max_upper (hate scores)
              [harassment scores; violence scores; sexual scores]) as [Hfirst Hrest].
  by constructor.
Qed.

(** X13. The introduction raises in one case only: the first active member
    has no [username], and then it raises the [KeyError] of that lookup,
    which happens before the [try] block. In every other case it returns,
    whatever the chat and moderation requests do. *)
Theorem introduction_raises_on_missing_username (sv : IntroServices)
    (user_bio community_name community_description : string)
    (active_members : list Member) :
  (forall e,
     generate_ai_introduction sv user_bio community_name community_description
       active_members = Raise e
     <-> e = "'username'"
         /\ exists first rest, active_members = first :: rest /\ username first = None)
  /\ ((active_members = []
       \/ exists first rest name,
            active_members = first :: rest /\ username first = Some name) ->
      exists answer,
        generate_ai_introduction sv user_bio community_name community_description
          active_members = Ok answer).
Proof.
  unfold generate_ai_introduction, mentioned. split.
  - intros e. destruct active_members as [|[[name|]] rest]; simpl.
    + split; [by destruct (chat_completion sv _)|].
      by intros (_ & first & rest & ? & _).
    + split; [by destruct (chat_completion sv _)|].
      by intros (_ & first & rest' & [= <- _] & Hname).
    + split.
      * intros [= <-]. split; [done|]. by eexists _, _.
      * by intros [-> _].
  - intros [->|(first & rest & name & -> & Hname)].
    + destruct (chat_completion sv _); by eexists.
    + rewrite Hname. destruct (chat_completion sv _); by eexists.
Qed.

(** X14. When the chat request fails the introduction is the fixed welcome
    naming the community, it mentions nobody even when there are active
    members, its score is 0.0, and the moderation request plays no part in
    it. *)
Theorem introduction_falls_back_to_welcome (sv sv' : IntroServices)
    (user_bio community_name community_description : string)
    (active_members : list Member) (mentioned_member : option string) (e : string) :
  mentioned active_members = Ok mentioned_member ->
  chat_completion sv
    (introduction_prompt user_bio community_name community_description mentioned_member)
  = Raise e ->
  chat_completion sv' = chat_completion sv ->
  generate_ai_introduction sv user_bio community_name community_description
    active_members
  = Ok ("Welcome to " +:+ community_name +:+ "! We're excited to have you here.",
        None, 0%float)
  /\ generate_ai_introduction sv' user_bio community_name community_description
       active_members
     = generate_ai_introduction sv user_bio community_name community_description
         active_members.
Proof.
  intros Hm Hchat Hsame. unfold generate_ai_introduction.
  rewrite Hm, Hsame, Hchat. done.
Qed.

Lemma introduction_falls_back_to_welcome_witness :
  generate_ai_introduction IntroDemo.chat_down "Trail runner" "Austin Runners"
    "Weekly runs" IntroDemo.members
  = Ok ("Welcome to Austin Runners! We're excited to have you here.", None, 0%float).
Proof.
  exact (proj1 (introduction_falls_back_to_welcome IntroDemo.chat_down IntroDemo.chat_down
                  "Trail runner" "Austin Runners" "Weekly runs" IntroDemo.members
                  (Some "maria") "Connection error." eq_refl eq_refl eq_refl)).
Defined.

(** X15. When the chat request answers with ASCII text, the introduction
    returned is the answer without leading and trailing whitespace, the
    text sent to moderation is that returned text, and the mention is the
    first active member's name (nobody for an empty list). *)
Theorem introduction_is_stripped_and_moderated (sv : IntroServices)
    (user_bio community_name community_description : string)
    (active_members : list Member) (mentioned_member : option string)
    (content : string) :
  ascii_text (chars content) ->
  mentioned active_members = Ok mentioned_member ->
  chat_completion sv
    (introduction_prompt user_bio community_name community_description mentioned_member)
  = Ok content ->
  exists intro_text toxicity,
    generate_ai_introduction sv user_bio community_name community_description
      active_members = Ok (intro_text, mentioned_member, toxicity)
    /\ intro_text = strip content
    /\ from_option is_space false (head (chars intro_text)) = false
    /\ from_option is_space false (last (chars intro_text)) = false
    /\ toxicity = _check_toxicity sv intro_text
    /\ mentioned_member = (head active_members ≫= username).
Proof.
  intros _ Hm Hchat. unfold generate_ai_introduction. rewrite Hm, Hchat.
  eexists _, _. split_and!; try done.
  - apply strip_edges.
  - apply strip_edges.
  - unfold mentioned in Hm. destruct active_members as [|[[name|]] rest]; simpl in *;
      congruence.
Qed.

Lemma introduction_is_stripped_and_moderated_witness :
  exists toxicity,
    generate_ai_introduction IntroDemo.chat_up "Trail runner" "Austin Runners"
      "Weekly runs" IntroDemo.members
    = Ok ("Welcome, runner! Say hi to @maria.", Some "maria", toxicity).
Proof.
  destruct (introduction_is_stripped_and_moderated IntroDemo.chat_up
              "Trail runner" "Austin Runners" "Weekly runs" IntroDemo.members
              (Some "maria") "  Welcome, runner! Say hi to @maria.  "
              ltac:(cbn; chars_ok) eq_refl eq_refl)
    as (intro_text & toxicity & Hrun & -> & _).
  exists toxicity. exact Hrun.
Defined.

(** ** Seeding *)

Section SeedFacts.

Variable sv : SeedServices.

Lemma seed_loop_spec communities upserts :
  exists done new,
    (seed_loop sv communities upserts).2 = upserts ++ new
    /\ Forall2 (seeded_as sv) done new
    /\ ((seed_loop sv communities upserts).1 = Ok () /\ done = communities
        \/ exists e failing rest,
             (seed_loop sv communities upserts).1 = Raise e
             /\ communities = done ++ failing :: rest
             /\ seed_fails sv failing e).
Proof.
  revert upserts. induction communities as [|c cs IH]; intros upserts; simpl.
  - exists [], []. rewrite app_nil_r. split_and!; [done|constructor|by left].
  - destruct (seed_embedding sv (seed_payload c)) as [vector|e] eqn:Hembed.
    + destruct (upsert_vector sv _ _ _) as [[]|e] eqn:Hupsert.
      * destruct (IH (upserts ++ [ {| up_vector_id := seed_community_id c;
                                      up_vector := vector;
                                      up_metadata := seed_metadata c |} ]))
          as (done & new & Hlog & Hdone & Hend).
        exists (c :: done), ({| up_vector_id := seed_community_id c;
                                up_vector := vector;
                                up_metadata := seed_metadata c |} :: new).
        split_and!.
        -- by rewrite Hlog, <- app_assoc.
        -- constructor; [|done]. by split_and!.
        -- destruct Hend as [[Hok ->]|(e & failing & rest & Hraise & -> & Hfail)].
           ++ by left.
           ++ right. by exists e, failing, rest.
      * exists [], []. rewrite app_nil_r. split_and!; [done|constructor|].
        right. exists e, c, cs. split_and!; [done..|]. right. by exists vector.
    + exists [], []. rewrite app_nil_r. split_and!; [done|constructor|].
      right. exists e, c, cs. split_and!; [done..|]. by left.
Qed.

End SeedFacts.

(** X16. Seeding stops at the first row whose embedding or upsert raises
    and lets that exception out: by then it has upserted the rows before
    that one, one upsert per row in their order, each a request the index
    answered, under the row's id with the embedding of its payload and its
    id, category, city and timezone as metadata, and it has upserted
    nothing for that row and the later ones. When no request raises it
    returns having upserted every row. *)
Theorem seeding_stops_at_first_failure (sv : SeedServices) (communities : list SeedRow) :
  initialize_postgres sv = Ok () ->
  initialize_pinecone sv = Ok () ->
  fetch_all_communities sv = Ok communities ->
  exists done,
    Forall2 (seeded_as sv) done (seed_community_embeddings sv).2
    /\ ((seed_community_embeddings sv).1 = Ok () /\ done = communities
        \/ exists e failing rest,
             (seed_community_embeddings sv).1 = Raise e
             /\ communities = done ++ failing :: rest
             /\ seed_fails sv failing e).
Proof.
  intros Hpg Hpc Hfetch. unfold seed_community_embeddings.
  rewrite Hpg, Hpc, Hfetch.
  destruct (seed_loop_spec sv communities []) as (done & new & Hlog & Hdone & Hend).
  exists done. rewrite Hlog. by split.
Qed.

Lemma seeding_stops_at_first_failure_witness :
  (exists done,
     Forall2 (seeded_as SeedDemo.sv) done (seed_community_embeddings SeedDemo.sv).2
     /\ length done = 1
     /\ (seed_community_embeddings SeedDemo.sv).1 = Raise "Rate limit reached")
  /\ (exists done,
        Forall2 (seeded_as SeedDemo.sv_upsert) done
          (seed_community_embeddings SeedDemo.sv_upsert).2
        /\ length done = 2
        /\ (seed_community_embeddings SeedDemo.sv_upsert).1 = Raise "Service Unavailable").
Proof.
  split.
  - destruct (seeding_stops_at_first_failure SeedDemo.sv SeedDemo.rows
                eq_refl eq_refl eq_refl) as (done & Hdone & _).
    exists done. split; [exact Hdone|]. split; [|reflexivity].
    by rewrite (Forall2_length _ _ _ Hdone).
  - destruct (seeding_stops_at_first_failure SeedDemo.sv_upsert SeedDemo.rows
                eq_refl eq_refl eq_refl) as (done & Hdone & _).
    exists done. split; [exact Hdone|]. split; [|reflexivity].
    by rewrite (Forall2_length _ _ _ Hdone).
Defined.

